(** * Verification of [examples/setup_claude_desktop.py]

    The script writes a JSON configuration file for a desktop application:
    [create_claude_config] reads the existing file when there is one, merges
    two server entries under the key [mcpServers], and writes the result with
    [json.dump(config, f, indent=2)].

    The development is a shallow embedding of that function:
    - Python [str] values are sequences of Unicode code points ([text]);
    - Python [dict] values are insertion-ordered association lists;
    - [json.load] and [json.dump] follow CPython's [json] package: the
      scanner, the string scanner, the number matcher, and the indenting
      encoder with [ensure_ascii];
    - Python floats are an interface ([PyFloat]) whose printing round-trips;
    - the file system is one directory and one file, with injected faults;
    - exceptions are an outcome type, and [try]/[except] catches by class.

    Interpreter resource limits (recursion depth, the digit limit of [int],
    memory) are not modelled. *)

From Stdlib Require Import Ascii String NArith ZArith Lia Bool List.
Import ListNotations.

Local Open Scope N_scope.

(** ** Python [str]: code points *)

Definition text : Type := list N.

(** A source-code string literal (ASCII) as a Python [str]. *)
Definition lit (s : string) : text := map N_of_ascii (list_ascii_of_string s).

Fixpoint text_eqb (a b : text) : bool :=
  match a, b with
  | [], [] => true
  | x :: a', y :: b' => (x =? y) && text_eqb a' b'
  | _, _ => false
  end.

Lemma text_eqb_eq (a b : text) : text_eqb a b = true <-> a = b.
Proof.
  revert b; induction a as [|x a IH]; intros [|y b]; simpl; split; try easy.
  - intros H. apply andb_true_iff in H as [H1 H2].
    apply N.eqb_eq in H1. apply IH in H2. now subst.
  - intros [= -> ->]. rewrite N.eqb_refl. now apply IH.
Qed.

Lemma text_eqb_refl (a : text) : text_eqb a a = true.
Proof. now apply text_eqb_eq. Qed.

Lemma text_eqb_neq (a b : text) : text_eqb a b = false <-> a <> b.
Proof.
  rewrite <- text_eqb_eq. destruct (text_eqb a b); split; congruence.
Qed.

(** [s.startswith(p)], returning what follows the prefix. *)
Fixpoint strip_prefix (p s : text) : option text :=
  match p, s with
  | [], _ => Some s
  | x :: p', y :: s' => if x =? y then strip_prefix p' s' else None
  | _ :: _, [] => None
  end.

Lemma strip_prefix_Some (p s r : text) : strip_prefix p s = Some r -> s = p ++ r.
Proof.
  revert s; induction p as [|x p IH]; intros s; simpl.
  - now intros [= ->].
  - destruct s as [|y s]; [easy|].
    destruct (x =? y) eqn:E; [|easy].
    apply N.eqb_eq in E. subst. intros H. now rewrite (IH _ H).
Qed.

(** [needle in haystack] for two [str] values. *)
Fixpoint is_substring (needle hay : text) : bool :=
  match strip_prefix needle hay with
  | Some _ => true
  | None => match hay with [] => false | _ :: hay' => is_substring needle hay' end
  end.

(** ** Decimal integers: [int.__repr__] and [int(literal)] *)

Definition is_digit (c : N) : bool := (48 <=? c) && (c <=? 57).

Fixpoint digits_fuel (fuel : nat) (n : N) (acc : text) : text :=
  match fuel with
  | O => acc
  | S fuel' =>
      let acc' := (48 + n mod 10) :: acc in
      if n <? 10 then acc' else digits_fuel fuel' (n / 10) acc'
  end.

(** Decimal digits of a natural number, most significant first. *)
Definition N_repr (n : N) : text := digits_fuel (S (N.size_nat n)) n [].

Definition int_repr (z : Z) : text :=
  match z with
  | Z0 => [48]
  | Zpos p => N_repr (Npos p)
  | Zneg p => 45 :: N_repr (Npos p)
  end.

Definition digits_value (ds : text) : N :=
  fold_left (fun acc c => 10 * acc + (c - 48)) ds 0.

Definition int_of_literal (l : text) : Z :=
  match l with
  | c :: r => if c =? 45 then (- Z.of_N (digits_value r))%Z
              else Z.of_N (digits_value l)
  | [] => 0%Z
  end.

(** ** [NUMBER_RE]: the scanner's number matcher *)

Fixpoint span_digits (s : text) : text * text :=
  match s with
  | c :: r =>
      if is_digit c then let (ds, r') := span_digits r in (c :: ds, r')
      else ([], s)
  | [] => ([], [])
  end.

Definition match_sign (s : text) : text * text :=
  match s with
  | c :: r => if c =? 45 then ([c], r) else ([], s)
  | [] => ([], [])
  end.

Definition match_int (s : text) : option (text * text) :=
  match s with
  | c :: r =>
      if c =? 48 then Some ([c], r)
      else if is_digit c then let (ds, r') := span_digits r in Some (c :: ds, r')
      else None
  | [] => None
  end.

Definition match_frac (s : text) : text * text :=
  match s with
  | dot :: d :: r =>
      if (dot =? 46) && is_digit d
      then let (ds, r') := span_digits r in (dot :: d :: ds, r')
      else ([], s)
  | _ => ([], s)
  end.

Definition match_exp_sign (s : text) : text * text :=
  match s with
  | c :: r => if (c =? 43) || (c =? 45) then ([c], r) else ([], s)
  | [] => ([], [])
  end.

Definition match_exp (s : text) : text * text :=
  match s with
  | e :: r =>
      if (e =? 101) || (e =? 69) then
        let (sg, r1) := match_exp_sign r in
        let (ds, r2) := span_digits r1 in
        match ds with
        | [] => ([], s)
        | _ :: _ => (e :: sg ++ ds, r2)
        end
      else ([], s)
  | [] => ([], [])
  end.

Definition is_nil {A} (l : list A) : bool :=
  match l with [] => true | _ :: _ => false end.

(** [(is_float, matched literal, rest)], or [None] when no number starts
    here. *)
Definition match_number (s : text) : option (bool * text * text) :=
  let (sg, s1) := match_sign s in
  match match_int s1 with
  | None => None
  | Some (ip, s2) =>
      let (fr, s3) := match_frac s2 in
      let (ex, s4) := match_exp s3 in
      Some (negb (is_nil fr) || negb (is_nil ex), sg ++ ip ++ fr ++ ex, s4)
  end.

Example match_number_int :
  match_number (lit "-120,") = Some (false, lit "-120", lit ",").
Proof. reflexivity. Qed.

Example match_number_backtrack :
  match_number (lit "1.e5") = Some (false, lit "1", lit ".e5").
Proof. reflexivity. Qed.

Example match_number_float :
  match_number (lit "0.25E+3]") = Some (true, lit "0.25E+3", lit "]").
Proof. reflexivity. Qed.

Example int_repr_neg : int_repr (-4300) = lit "-4300".
Proof. reflexivity. Qed.

(** *** Facts about decimal printing *)

Definition digit_step (acc c : N) : N := 10 * acc + (c - 48).

Lemma digits_value_unfold (ds : text) : digits_value ds = fold_left digit_step ds 0.
Proof. reflexivity. Qed.

Lemma pos_size_nat_bound (p : positive) : N.pos p < 2 ^ N.of_nat (Pos.size_nat p).
Proof.
  induction p as [p IH|p IH|]; cbn [Pos.size_nat];
    rewrite ?Nat2N.inj_succ, ?N.pow_succ_r'; try lia.
Qed.

Lemma size_nat_bound (n : N) : n < 2 ^ N.of_nat (S (N.size_nat n)).
Proof.
  rewrite Nat2N.inj_succ, N.pow_succ_r'.
  destruct n as [|p]; cbn [N.size_nat].
  - cbn. lia.
  - pose proof (pos_size_nat_bound p). lia.
Qed.

Lemma digits_fuel_value (fuel : nat) :
  forall n acc, n < 2 ^ N.of_nat fuel ->
    fold_left digit_step (digits_fuel fuel n acc) 0 = fold_left digit_step acc n.
Proof.
  induction fuel as [|fuel IH]; intros n acc Hn.
  - cbn in Hn. assert (n = 0) by lia. now subst.
  - cbn [digits_fuel]. destruct (N.ltb_spec n 10) as [Hlt|Hge].
    + cbn [fold_left]. unfold digit_step at 2.
      rewrite N.mod_small by lia. f_equal. lia.
    + rewrite IH.
      * cbn [fold_left]. f_equal. unfold digit_step.
        pose proof (N.div_mod n 10 ltac:(lia)) as E.
        set (m := n mod 10) in *. set (q := n / 10) in *. clearbody m q. lia.
      * rewrite Nat2N.inj_succ, N.pow_succ_r' in Hn.
        apply N.Div0.div_lt_upper_bound. lia.
Qed.

Lemma digits_value_N_repr (n : N) : digits_value (N_repr n) = n.
Proof.
  unfold N_repr. rewrite digits_value_unfold, digits_fuel_value.
  - reflexivity.
  - apply size_nat_bound.
Qed.

(** A positive number prints as a non-zero digit followed by digits. *)
Lemma digits_fuel_shape (fuel : nat) :
  forall n acc, 0 < n -> n < 2 ^ N.of_nat fuel ->
    exists d ds, digits_fuel fuel n acc = d :: ds ++ acc
                 /\ 49 <= d <= 57 /\ Forall (fun c => is_digit c = true) ds.
Proof.
  induction fuel as [|fuel IH]; intros n acc Hpos Hn.
  - cbn in Hn. lia.
  - cbn [digits_fuel]. destruct (N.ltb_spec n 10) as [Hlt|Hge].
    + exists (48 + n mod 10), []. rewrite N.mod_small by lia.
      repeat split; try lia. constructor.
    + destruct (IH (n / 10) ((48 + n mod 10) :: acc)) as (d & ds & E & Hd & Hds).
      * apply N.div_str_pos. lia.
      * rewrite Nat2N.inj_succ, N.pow_succ_r' in Hn.
        apply N.Div0.div_lt_upper_bound. lia.
      * exists d, (ds ++ [48 + n mod 10]). rewrite E, <- app_assoc.
        repeat split; try lia.
        apply Forall_app; split; [assumption|]. constructor; [|constructor].
        pose proof (N.mod_upper_bound n 10 ltac:(lia)) as Hm. unfold is_digit.
        set (m := n mod 10) in *. clearbody m.
        apply andb_true_iff; split; apply N.leb_le; lia.
Qed.

Lemma N_repr_shape (p : positive) :
  exists d ds, N_repr (N.pos p) = d :: ds
               /\ 49 <= d <= 57 /\ Forall (fun c => is_digit c = true) ds.
Proof.
  destruct (digits_fuel_shape (S (N.size_nat (N.pos p))) (N.pos p) [])
    as (d & ds & E & Hd & Hds); [lia|apply size_nat_bound|].
  exists d, ds. unfold N_repr. now rewrite E, app_nil_r.
Qed.

Lemma int_of_literal_repr (z : Z) : int_of_literal (int_repr z) = z.
Proof.
  destruct z as [|p|p]; [reflexivity| |].
  - cbn [int_repr]. destruct (N_repr_shape p) as (d & ds & E & Hd & _).
    unfold int_of_literal. rewrite E.
    replace (d =? 45) with false by (symmetry; apply N.eqb_neq; lia).
    rewrite <- E, digits_value_N_repr. reflexivity.
  - cbn [int_repr int_of_literal]. rewrite N.eqb_refl, digits_value_N_repr.
    reflexivity.
Qed.

(** *** The matcher is local: what follows a number does not change it *)

Definition number_char (c : N) : bool :=
  is_digit c || (c =? 46) || (c =? 101) || (c =? 69) || (c =? 43) || (c =? 45).

(** The text after a token does not continue a number. *)
Definition ends_number (rest : text) : Prop :=
  match rest with
  | [] => True
  | c :: _ => number_char c = false
  end.

Lemma number_char_false (c : N) :
  number_char c = false ->
  is_digit c = false /\ c <> 46 /\ c <> 101 /\ c <> 69 /\ c <> 43 /\ c <> 45.
Proof.
  unfold number_char. rewrite !orb_false_iff, !N.eqb_neq. tauto.
Qed.

Lemma span_digits_ends (rest : text) :
  ends_number rest -> span_digits rest = ([], rest).
Proof.
  destruct rest as [|c rest]; [easy|]. cbn. intros H.
  apply number_char_false in H as [-> _]. reflexivity.
Qed.

Lemma span_digits_app (l rest : text) :
  ends_number rest ->
  span_digits (l ++ rest) = (fst (span_digits l), snd (span_digits l) ++ rest).
Proof.
  intros Hr. induction l as [|c l IH]; cbn [app span_digits].
  - now rewrite span_digits_ends.
  - destruct (is_digit c); [|reflexivity].
    rewrite IH. now destruct (span_digits l).
Qed.

Lemma span_digits_all (ds rest : text) :
  Forall (fun c => is_digit c = true) ds -> ends_number rest ->
  span_digits (ds ++ rest) = (ds, rest).
Proof.
  intros Hds Hr. induction Hds as [|c ds Hc _ IH]; cbn [app span_digits].
  - now apply span_digits_ends.
  - now rewrite Hc, IH.
Qed.

Lemma match_sign_app (l rest : text) :
  ends_number rest ->
  match_sign (l ++ rest) = (fst (match_sign l), snd (match_sign l) ++ rest).
Proof.
  intros Hr. destruct l as [|c l]; cbn [app match_sign].
  - destruct rest as [|c rest]; [reflexivity|]. cbn in *.
    apply number_char_false in Hr. 
    replace (c =? 45) with false by (symmetry; apply N.eqb_neq; tauto).
    reflexivity.
  - now destruct (c =? 45).
Qed.

Lemma match_int_app (l rest ip r : text) :
  ends_number rest -> match_int l = Some (ip, r) ->
  match_int (l ++ rest) = Some (ip, r ++ rest).
Proof.
  intros Hr. destruct l as [|c l]; cbn [app match_int]; [easy|].
  destruct (c =? 48); [now intros [= <- <-]|].
  destruct (is_digit c); [|easy].
  rewrite span_digits_app by assumption.
  destruct (span_digits l). now intros [= <- <-].
Qed.

Lemma match_frac_app (l rest : text) :
  ends_number rest ->
  match_frac (l ++ rest) = (fst (match_frac l), snd (match_frac l) ++ rest).
Proof.
  intros Hr. destruct l as [|dot [|d l]]; cbn [app match_frac].
  - destruct rest as [|c [|d rest]]; try reflexivity.
    cbn in Hr. apply number_char_false in Hr.
    cbn [match_frac fst snd app].
    replace (c =? 46) with false by (symmetry; apply N.eqb_neq; tauto).
    reflexivity.
  - destruct rest as [|c rest]; [reflexivity|].
    cbn in Hr. apply number_char_false in Hr as [Hc _].
    cbn [match_frac fst snd app]. now rewrite Hc, andb_false_r.
  - destruct ((dot =? 46) && is_digit d); [|reflexivity].
    rewrite span_digits_app by assumption. now destruct (span_digits l).
Qed.

Lemma match_exp_sign_app (l rest : text) :
  ends_number rest ->
  match_exp_sign (l ++ rest)
  = (fst (match_exp_sign l), snd (match_exp_sign l) ++ rest).
Proof.
  intros Hr. destruct l as [|c l]; cbn [app match_exp_sign].
  - destruct rest as [|c rest]; [reflexivity|]. cbn in *.
    apply number_char_false in Hr.
    replace (c =? 43) with false by (symmetry; apply N.eqb_neq; tauto).
    replace (c =? 45) with false by (symmetry; apply N.eqb_neq; tauto).
    reflexivity.
  - now destruct ((c =? 43) || (c =? 45)).
Qed.

Lemma match_exp_app (l rest : text) :
  ends_number rest ->
  match_exp (l ++ rest) = (fst (match_exp l), snd (match_exp l) ++ rest).
Proof.
  intros Hr. destruct l as [|e l]; cbn [app match_exp].
  - destruct rest as [|c rest]; [reflexivity|]. cbn [match_exp].
    cbn in Hr. apply number_char_false in Hr.
    replace (c =? 101) with false by (symmetry; apply N.eqb_neq; tauto).
    replace (c =? 69) with false by (symmetry; apply N.eqb_neq; tauto).
    reflexivity.
  - destruct ((e =? 101) || (e =? 69)); [|reflexivity].
    rewrite match_exp_sign_app by assumption.
    destruct (match_exp_sign l) as [sg r1]. cbn [fst snd].
    rewrite span_digits_app by assumption.
    destruct (span_digits r1) as [ds r2]. cbn [fst snd].
    now destruct ds.
Qed.

Lemma match_number_app (l rest m r : text) (b : bool) :
  ends_number rest -> match_number l = Some (b, m, r) ->
  match_number (l ++ rest) = Some (b, m, r ++ rest).
Proof.
  intros Hr. unfold match_number.
  rewrite match_sign_app by assumption.
  destruct (match_sign l) as [sg s1]. cbn [fst snd].
  destruct (match_int s1) as [[ip s2]|] eqn:Ei; [|easy].
  rewrite (match_int_app _ _ _ _ Hr Ei).
  rewrite match_frac_app by assumption.
  destruct (match_frac s2) as [fr s3]. cbn [fst snd].
  rewrite match_exp_app by assumption.
  destruct (match_exp s3) as [ex s4]. cbn [fst snd].
  now intros [= <- <- <-].
Qed.

Lemma match_number_int_repr (z : Z) :
  match_number (int_repr z) = Some (false, int_repr z, []).
Proof.
  destruct z as [|p|p]; [reflexivity| |].
  - cbn [int_repr]. destruct (N_repr_shape p) as (d & ds & -> & Hd & Hds).
    unfold match_number, match_sign.
    replace (d =? 45) with false by (symmetry; apply N.eqb_neq; lia).
    unfold match_int.
    replace (d =? 48) with false by (symmetry; apply N.eqb_neq; lia).
    replace (is_digit d) with true
      by (symmetry; apply andb_true_iff; split; apply N.leb_le; lia).
    rewrite <- (app_nil_r ds) at 1. rewrite span_digits_all by easy.
    cbn. now rewrite app_nil_r.
  - cbn [int_repr]. destruct (N_repr_shape p) as (d & ds & -> & Hd & Hds).
    unfold match_number, match_sign. rewrite N.eqb_refl.
    unfold match_int.
    replace (d =? 48) with false by (symmetry; apply N.eqb_neq; lia).
    replace (is_digit d) with true
      by (symmetry; apply andb_true_iff; split; apply N.leb_le; lia).
    rewrite <- (app_nil_r ds) at 1. rewrite span_digits_all by easy.
    cbn. now rewrite app_nil_r.
Qed.

(** ** Strings: [encode_basestring_ascii] and [scanstring] *)

(** Arithmetic with [/] and [mod] on [N]. *)
Ltac div_lia := zify; Z.to_euclidean_division_equations; lia.

Definition is_high_surrogate (c : N) : bool := (0xD800 <=? c) && (c <=? 0xDBFF).
Definition is_low_surrogate (c : N) : bool := (0xDC00 <=? c) && (c <=? 0xDFFF).
Definition is_surrogate (c : N) : bool := (0xD800 <=? c) && (c <=? 0xDFFF).

(** [Py_UNICODE_HIGH_SURROGATE], [Py_UNICODE_LOW_SURROGATE] and
    [Py_UNICODE_JOIN_SURROGATES]. *)
Definition high_surrogate (c : N) : N := 0xD800 + (c - 0x10000) / 1024.
Definition low_surrogate (c : N) : N := 0xDC00 + (c - 0x10000) mod 1024.
Definition join_surrogates (hi lo : N) : N :=
  0x10000 + (hi - 0xD800) * 1024 + (lo - 0xDC00).

(** The digit [n] of ["0123456789abcdef"]. *)
Definition hex_digit (n : N) : N := if n <? 10 then 48 + n else 87 + n.

Definition hex_val (c : N) : option N :=
  if is_digit c then Some (c - 48)
  else if (97 <=? c) && (c <=? 102) then Some (c - 87)
  else if (65 <=? c) && (c <=? 70) then Some (c - 55)
  else None.

Definition hex4 (a b c d : N) : option N :=
  match hex_val a, hex_val b, hex_val c, hex_val d with
  | Some x, Some y, Some z, Some w => Some (((x * 16 + y) * 16 + z) * 16 + w)
  | _, _, _, _ => None
  end.

(** [\uXXXX] for a 16-bit code unit. *)
Definition u_escape (c : N) : text :=
  [92; 117; hex_digit ((c / 4096) mod 16); hex_digit ((c / 256) mod 16);
   hex_digit ((c / 16) mod 16); hex_digit (c mod 16)].

(** The encoder's replacement of one character ([ensure_ascii=True]). *)
Definition escape_char (c : N) : text :=
  if c =? 92 then [92; 92]
  else if c =? 34 then [92; 34]
  else if c =? 8 then [92; 98]
  else if c =? 12 then [92; 102]
  else if c =? 10 then [92; 110]
  else if c =? 13 then [92; 114]
  else if c =? 9 then [92; 116]
  else if (32 <=? c) && (c <=? 126) then [c]
  else if c <? 0x10000 then u_escape c
  else u_escape (high_surrogate c) ++ u_escape (low_surrogate c).

Definition encode_basestring_ascii (s : text) : text :=
  34 :: flat_map escape_char s ++ [34].

(** The character a backslash escape other than [\u] stands for. *)
Definition unescape (e : N) : option N :=
  if e =? 34 then Some 34
  else if e =? 92 then Some 92
  else if e =? 47 then Some 47
  else if e =? 98 then Some 8
  else if e =? 102 then Some 12
  else if e =? 110 then Some 10
  else if e =? 114 then Some 13
  else if e =? 116 then Some 9
  else None.

Definition push (c : N) (r : option (text * text)) : option (text * text) :=
  match r with
  | Some (out, rest) => Some (c :: out, rest)
  | None => None
  end.

(** [scanstring(s, end, strict=True)], started after the opening quote:
    the decoded string and the text after the closing quote; [None] stands
    for [JSONDecodeError]. *)
Fixpoint scanstring (s : text) : option (text * text) :=
  match s with
  | [] => None
  | c :: r =>
      if c =? 34 then Some ([], r)
      else if c =? 92 then
        match r with
        | [] => None
        | e :: r1 =>
            if e =? 117 then
              match r1 with
              | h1 :: h2 :: h3 :: h4 :: r2 =>
                  match hex4 h1 h2 h3 h4 with
                  | None => None
                  | Some u =>
                      if is_high_surrogate u then
                        match r2 with
                        | b :: v :: g1 :: g2 :: g3 :: g4 :: r3 =>
                            if (b =? 92) && (v =? 117) then
                              match hex4 g1 g2 g3 g4 with
                              | None => None
                              | Some u2 =>
                                  if is_low_surrogate u2
                                  then push (join_surrogates u u2) (scanstring r3)
                                  else push u (scanstring r2)
                              end
                            else push u (scanstring r2)
                        | _ => push u (scanstring r2)
                        end
                      else push u (scanstring r2)
                  end
              | _ => None
              end
            else
              match unescape e with
              | Some x => push x (scanstring r1)
              | None => None
              end
        end
      else if c <=? 31 then None
      else push c (scanstring r)
  end.

Example scanstring_unterminated :
  scanstring (lit "a\ud83d\ude00\n\u00e9, 1") = None.
Proof. reflexivity. Qed.

Example scanstring_pair :
  scanstring (lit "a\ud83d\ude00\n\u00E9" ++ 34 :: lit ", 1")
  = Some ([97; 0x1F600; 10; 233], lit ", 1").
Proof. reflexivity. Qed.

Example scanstring_lone_surrogates :
  scanstring (lit "\ude00\ud83d\ud83dx" ++ [34])
  = Some ([0xDE00; 0xD83D; 0xD83D; 120], []).
Proof. reflexivity. Qed.

Example encode_string_example :
  encode_basestring_ascii [97; 0x1F600; 10; 233; 127; 47]
  = 34 :: lit "a\ud83d\ude00\n\u00e9\u007f/" ++ [34].
Proof. reflexivity. Qed.

(** *** One step of the string scanner *)

Inductive uescape : Type :=
| UAbsent
| UBad
| UCode (u : N) (rest : text).

(** A [\uXXXX] escape at the head of [s]. *)
Definition read_uescape (s : text) : uescape :=
  match s with
  | b :: v :: g1 :: g2 :: g3 :: g4 :: r =>
      if (b =? 92) && (v =? 117) then
        match hex4 g1 g2 g3 g4 with
        | Some u => UCode u r
        | None => UBad
        end
      else UAbsent
  | _ => UAbsent
  end.

Inductive char_step : Type :=
| StepEnd (rest : text)
| StepChar (c : N) (rest : text)
| StepError.

Definition scan_char (s : text) : char_step :=
  match s with
  | [] => StepError
  | c :: r =>
      if c =? 34 then StepEnd r
      else if c =? 92 then
        match r with
        | [] => StepError
        | e :: r1 =>
            if e =? 117 then
              match r1 with
              | h1 :: h2 :: h3 :: h4 :: r2 =>
                  match hex4 h1 h2 h3 h4 with
                  | None => StepError
                  | Some u =>
                      if is_high_surrogate u then
                        match read_uescape r2 with
                        | UCode u2 r3 =>
                            if is_low_surrogate u2
                            then StepChar (join_surrogates u u2) r3
                            else StepChar u r2
                        | UBad => StepError
                        | UAbsent => StepChar u r2
                        end
                      else StepChar u r2
                  end
              | _ => StepError
              end
            else
              match unescape e with
              | Some x => StepChar x r1
              | None => StepError
              end
        end
      else if c <=? 31 then StepError
      else StepChar c r
  end.

Lemma scanstring_unfold (s : text) :
  scanstring s =
  match scan_char s with
  | StepEnd r => Some ([], r)
  | StepChar c r => push c (scanstring r)
  | StepError => None
  end.
Proof.
  destruct s as [|c r]; [reflexivity|]. cbn [scanstring scan_char].
  destruct (c =? 34); [reflexivity|].
  destruct (c =? 92).
  - destruct r as [|e r1]; [reflexivity|].
    destruct (e =? 117).
    + destruct r1 as [|h1 [|h2 [|h3 [|h4 r2]]]]; try reflexivity.
      destruct (hex4 h1 h2 h3 h4) as [u|]; [|reflexivity].
      destruct (is_high_surrogate u); [|reflexivity].
      unfold read_uescape.
      destruct r2 as [|b [|v [|g1 [|g2 [|g3 [|g4 r3]]]]]]; try reflexivity.
      destruct ((b =? 92) && (v =? 117)); [|reflexivity].
      destruct (hex4 g1 g2 g3 g4) as [u2|]; [|reflexivity].
      destruct (is_low_surrogate u2); reflexivity.
    + destruct (unescape e); reflexivity.
  - destruct (c <=? 31); reflexivity.
Qed.

(** *** Suffixes: what a scanner leaves is a proper suffix of its input *)

Definition proper_suffix (r s : text) : Prop :=
  exists c p, s = c :: p ++ r.

Lemma proper_suffix_length (r s : text) :
  proper_suffix r s -> (length r < length s)%nat.
Proof. intros (c & p & ->). cbn. rewrite length_app. lia. Qed.

Lemma proper_suffix_Forall (P : N -> Prop) (r s : text) :
  proper_suffix r s -> Forall P s -> Forall P r.
Proof.
  intros (c & p & ->) H. inversion H as [|? ? _ H']; subst.
  apply Forall_app in H'. tauto.
Qed.

Lemma proper_suffix_cons (c : N) (r : text) : proper_suffix r (c :: r).
Proof. now exists c, []. Qed.

Lemma proper_suffix_trans (a b c : text) :
  proper_suffix a b -> proper_suffix b c -> proper_suffix a c.
Proof.
  intros (x & p & ->) (y & q & ->). exists y, (q ++ x :: p).
  now rewrite <- app_assoc.
Qed.

Lemma proper_suffix_cons_r (c : N) (r s : text) :
  proper_suffix r s -> proper_suffix r (c :: s).
Proof. intros H. eapply proper_suffix_trans; [exact H|apply proper_suffix_cons]. Qed.

Create HintDb suffix.
#[local] Hint Resolve proper_suffix_cons proper_suffix_cons_r : suffix.

Lemma read_uescape_suffix (s : text) (u : N) (r : text) :
  read_uescape s = UCode u r -> proper_suffix r s.
Proof.
  unfold read_uescape.
  destruct s as [|b [|v [|g1 [|g2 [|g3 [|g4 r3]]]]]]; try easy.
  destruct ((b =? 92) && (v =? 117)); [|easy].
  destruct (hex4 g1 g2 g3 g4); [|easy].
  intros [= _ <-]. auto 7 with suffix.
Qed.

Lemma scan_char_suffix (s : text) :
  match scan_char s with
  | StepEnd r | StepChar _ r => proper_suffix r s
  | StepError => True
  end.
Proof.
  destruct s as [|c r]; [exact I|]. cbn [scan_char].
  destruct (c =? 34); [auto with suffix|].
  destruct (c =? 92).
  - destruct r as [|e r1]; [exact I|].
    destruct (e =? 117).
    + destruct r1 as [|h1 [|h2 [|h3 [|h4 r2]]]]; try exact I.
      destruct (hex4 h1 h2 h3 h4) as [u|]; [|exact I].
      destruct (is_high_surrogate u); [|auto 7 with suffix].
      destruct (read_uescape r2) as [| |u2 r3] eqn:E;
        [auto 7 with suffix|exact I|].
      apply read_uescape_suffix in E.
      destruct (is_low_surrogate u2); auto 8 with suffix.
    + destruct (unescape e); [auto with suffix|exact I].
  - destruct (c <=? 31); [exact I|auto with suffix].
Qed.

Lemma scanstring_suffix (s out rest : text) :
  scanstring s = Some (out, rest) -> proper_suffix rest s.
Proof.
  remember (length s) as n eqn:Hn. revert s out rest Hn.
  induction n as [n IH] using lt_wf_ind. intros s out rest Hn.
  rewrite scanstring_unfold. pose proof (scan_char_suffix s) as Hs.
  destruct (scan_char s) as [r|c r|]; [| |easy].
  - now intros [= _ <-].
  - destruct (scanstring r) as [[out' rest']|] eqn:E; [|easy].
    cbn [push]. intros [= _ <-].
    apply proper_suffix_trans with r; [|assumption].
    apply (IH (length r)) with out'; try easy.
    subst n. now apply proper_suffix_length.
Qed.

(** *** Hexadecimal escapes *)

Lemma hex_val_hex_digit (n : N) : n < 16 -> hex_val (hex_digit n) = Some n.
Proof.
  intros Hn. unfold hex_digit, hex_val, is_digit.
  destruct (N.ltb_spec n 10).
  - replace (48 <=? 48 + n) with true by (symmetry; apply N.leb_le; lia).
    replace (48 + n <=? 57) with true by (symmetry; apply N.leb_le; lia).
    cbn [andb]. f_equal. lia.
  - replace (87 + n <=? 57) with false by (symmetry; apply N.leb_gt; lia).
    rewrite andb_false_r.
    replace (97 <=? 87 + n) with true by (symmetry; apply N.leb_le; lia).
    replace (87 + n <=? 102) with true by (symmetry; apply N.leb_le; lia).
    cbn [andb]. f_equal. lia.
Qed.

Lemma hex_val_bound (c n : N) : hex_val c = Some n -> n < 16.
Proof.
  unfold hex_val, is_digit.
  destruct (N.leb_spec 48 c), (N.leb_spec c 57); cbn [andb];
    try (intros [= <-]; lia);
    destruct (N.leb_spec 97 c), (N.leb_spec c 102); cbn [andb];
    try (intros [= <-]; lia);
    destruct (N.leb_spec 65 c), (N.leb_spec c 70); cbn [andb];
    try (intros [= <-]; lia); easy.
Qed.

Lemma hex4_bound (a b c d u : N) : hex4 a b c d = Some u -> u < 0x10000.
Proof.
  unfold hex4.
  destruct (hex_val a) as [x|] eqn:Ea; [|easy].
  destruct (hex_val b) as [y|] eqn:Eb; [|easy].
  destruct (hex_val c) as [z|] eqn:Ec; [|easy].
  destruct (hex_val d) as [w|] eqn:Ed; [|easy].
  apply hex_val_bound in Ea, Eb, Ec, Ed. intros [= <-]. lia.
Qed.

Lemma hex4_digits (c : N) :
  c < 0x10000 ->
  hex4 (hex_digit ((c / 4096) mod 16)) (hex_digit ((c / 256) mod 16))
       (hex_digit ((c / 16) mod 16)) (hex_digit (c mod 16)) = Some c.
Proof.
  intros Hc. unfold hex4.
  rewrite !hex_val_hex_digit by (apply N.mod_upper_bound; lia).
  f_equal. div_lia.
Qed.

Lemma read_uescape_u_escape (u : N) (t : text) :
  u < 0x10000 -> read_uescape (u_escape u ++ t) = UCode u t.
Proof.
  intros Hu. unfold u_escape, read_uescape. cbn [app].
  change ((92 =? 92) && (117 =? 117)) with true. cbv iota.
  now rewrite hex4_digits.
Qed.

Lemma scan_char_u_escape (u : N) (t : text) :
  u < 0x10000 ->
  scan_char (u_escape u ++ t) =
  if is_high_surrogate u then
    match read_uescape t with
    | UCode u2 r3 =>
        if is_low_surrogate u2 then StepChar (join_surrogates u u2) r3
        else StepChar u t
    | UBad => StepError
    | UAbsent => StepChar u t
    end
  else StepChar u t.
Proof.
  intros Hu. unfold u_escape. cbn [app scan_char].
  change (92 =? 34) with false. change (92 =? 92) with true.
  change (117 =? 117) with true. cbv iota.
  now rewrite hex4_digits.
Qed.

(** *** Well-formed strings

    A [str] the decoder can produce: code points below [0x110000], and no
    high surrogate directly followed by a low surrogate (the scanner joins
    such a pair of escapes into one code point). *)

Definition pair_free (c : N) (r : text) : bool :=
  negb (is_high_surrogate c
        && match r with c2 :: _ => is_low_surrogate c2 | [] => false end).

Fixpoint text_ok (s : text) : bool :=
  match s with
  | [] => true
  | c :: r => (c <? 0x110000) && pair_free c r && text_ok r
  end.

(** The text does not start with the escape of a low surrogate. *)
Definition no_low_escape (t : text) : Prop :=
  match read_uescape t with
  | UCode u _ => is_low_surrogate u = false
  | UBad => False
  | UAbsent => True
  end.

Lemma no_low_escape_quote (t : text) : no_low_escape (34 :: t).
Proof.
  unfold no_low_escape, read_uescape.
  destruct t as [|v [|g1 [|g2 [|g3 [|g4 r3]]]]]; exact I.
Qed.

Tactic Notation "decide_eqb" constr(c) constr(k) "by" tactic3(tac) :=
  destruct (N.eqb_spec c k) as [->|?]; [solve [tac]|].

Lemma read_uescape_two (b v : N) (t : text) :
  (b =? 92) && (v =? 117) = false -> read_uescape (b :: v :: t) = UAbsent.
Proof.
  intros H. unfold read_uescape.
  destruct t as [|g1 [|g2 [|g3 [|g4 r3]]]]; try reflexivity. now rewrite H.
Qed.

Lemma read_uescape_one (b : N) (t : text) :
  b <> 92 -> read_uescape (b :: t) = UAbsent.
Proof.
  intros H. destruct t as [|v t]; [reflexivity|].
  apply read_uescape_two. apply N.eqb_neq in H. now rewrite H.
Qed.

Lemma no_low_escape_escape_char (c : N) (t : text) :
  c < 0x110000 -> is_low_surrogate c = false ->
  no_low_escape (escape_char c ++ t).
Proof.
  intros Hc Hlow. unfold no_low_escape, escape_char.
  decide_eqb c 92 by (cbn [app]; now rewrite read_uescape_two).
  decide_eqb c 34 by (cbn [app]; now rewrite read_uescape_two).
  decide_eqb c 8 by (cbn [app]; now rewrite read_uescape_two).
  decide_eqb c 12 by (cbn [app]; now rewrite read_uescape_two).
  decide_eqb c 10 by (cbn [app]; now rewrite read_uescape_two).
  decide_eqb c 13 by (cbn [app]; now rewrite read_uescape_two).
  decide_eqb c 9 by (cbn [app]; now rewrite read_uescape_two).
  destruct ((32 <=? c) && (c <=? 126)).
  { cbn [app]. now rewrite read_uescape_one. }
  destruct (N.ltb_spec c 0x10000).
  - now rewrite read_uescape_u_escape.
  - rewrite <- app_assoc, read_uescape_u_escape.
    + unfold is_low_surrogate, high_surrogate.
      apply andb_false_iff. left. apply N.leb_gt. div_lia.
    + unfold high_surrogate. div_lia.
Qed.

Lemma scan_char_escape_char (c : N) (t : text) :
  c < 0x110000 ->
  (is_high_surrogate c = true -> no_low_escape t) ->
  scan_char (escape_char c ++ t) = StepChar c t.
Proof.
  intros Hc Hnext. unfold escape_char.
  decide_eqb c 92 by reflexivity. decide_eqb c 34 by reflexivity.
  decide_eqb c 8 by reflexivity. decide_eqb c 12 by reflexivity.
  decide_eqb c 10 by reflexivity. decide_eqb c 13 by reflexivity.
  decide_eqb c 9 by reflexivity.
  destruct (N.leb_spec 32 c); cbn [andb].
  2:{ destruct (N.ltb_spec c 0x10000); [|lia].
      rewrite scan_char_u_escape by assumption.
      replace (is_high_surrogate c) with false; [reflexivity|].
      symmetry. apply andb_false_iff. left. apply N.leb_gt. lia. }
  destruct (N.leb_spec c 126).
  { cbn [app scan_char].
    replace (c =? 34) with false by (symmetry; now apply N.eqb_neq).
    replace (c =? 92) with false by (symmetry; now apply N.eqb_neq).
    replace (c <=? 31) with false by (symmetry; apply N.leb_gt; lia).
    reflexivity. }
  destruct (N.ltb_spec c 0x10000).
  - rewrite scan_char_u_escape by assumption.
    destruct (is_high_surrogate c); [|reflexivity].
    specialize (Hnext eq_refl). unfold no_low_escape in Hnext.
    destruct (read_uescape t) as [| |u2 r3]; [reflexivity|easy|].
    now rewrite Hnext.
  - rewrite <- app_assoc.
    assert (Hh : 0xD800 <= high_surrogate c <= 0xDBFF)
      by (unfold high_surrogate; div_lia).
    assert (Hl : 0xDC00 <= low_surrogate c <= 0xDFFF)
      by (unfold low_surrogate; div_lia).
    rewrite scan_char_u_escape by lia.
    replace (is_high_surrogate (high_surrogate c)) with true
      by (symmetry; apply andb_true_iff; split; apply N.leb_le; lia).
    rewrite read_uescape_u_escape by lia.
    replace (is_low_surrogate (low_surrogate c)) with true
      by (symmetry; apply andb_true_iff; split; apply N.leb_le; lia).
    f_equal. unfold join_surrogates, high_surrogate, low_surrogate. div_lia.
Qed.

(** Decoding the encoder's output gives the string back. *)
Lemma scanstring_escape (s rest : text) :
  text_ok s = true ->
  scanstring (flat_map escape_char s ++ 34 :: rest) = Some (s, rest).
Proof.
  induction s as [|c s IH]; intros Hok.
  - reflexivity.
  - cbn [text_ok] in Hok. apply andb_true_iff in Hok as [Hok Hs].
    apply andb_true_iff in Hok as [Hc Hpair]. apply N.ltb_lt in Hc.
    cbn [flat_map]. rewrite <- app_assoc, scanstring_unfold.
    rewrite scan_char_escape_char; [now rewrite IH| assumption |].
    intros Hhigh. unfold pair_free in Hpair. rewrite Hhigh in Hpair.
    destruct s as [|c2 s'].
    + apply no_low_escape_quote.
    + cbn [flat_map]. rewrite <- app_assoc.
      cbn [text_ok] in Hs. apply andb_true_iff in Hs as [Hs _].
      apply andb_true_iff in Hs as [Hc2 _]. apply N.ltb_lt in Hc2.
      apply no_low_escape_escape_char; [assumption|].
      cbn in Hpair. now destruct (is_low_surrogate c2).
Qed.

(** *** What the string scanner returns is well formed

    The decoded file holds Unicode scalar values only (the UTF-8 decoder
    rejects surrogates), so a surrogate in a scanned string comes from a
    [\uXXXX] escape, and a high one is never directly followed by a low one:
    the scanner would have joined the two escapes. *)

Definition scalar (c : N) : Prop := c < 0x110000 /\ is_surrogate c = false.

Lemma surrogate_cases (c : N) :
  is_surrogate c = false ->
  is_high_surrogate c = false /\ is_low_surrogate c = false.
Proof.
  unfold is_surrogate, is_high_surrogate, is_low_surrogate.
  rewrite !andb_false_iff, !N.leb_gt. lia.
Qed.

Lemma high_not_low (c : N) :
  is_high_surrogate c = true -> is_low_surrogate c = false.
Proof.
  unfold is_high_surrogate, is_low_surrogate.
  rewrite andb_true_iff, andb_false_iff, !N.leb_le, !N.leb_gt. lia.
Qed.

Lemma joined_range (u u2 : N) :
  is_high_surrogate u = true -> is_low_surrogate u2 = true ->
  0x10000 <= join_surrogates u u2 < 0x110000.
Proof.
  unfold is_high_surrogate, is_low_surrogate, join_surrogates.
  rewrite !andb_true_iff, !N.leb_le. lia.
Qed.

Lemma not_surrogate_above (c : N) :
  0x10000 <= c -> is_high_surrogate c = false /\ is_low_surrogate c = false.
Proof.
  unfold is_high_surrogate, is_low_surrogate.
  rewrite !andb_false_iff, !N.leb_gt. lia.
Qed.

Lemma unescape_values (e x : N) :
  unescape e = Some x ->
  x < 0x110000 /\ is_high_surrogate x = false /\ is_low_surrogate x = false.
Proof.
  unfold unescape.
  repeat match goal with
         | |- context [if ?b then _ else _] => destruct b
         end; intros [= <-]; repeat split; reflexivity.
Qed.

Definition next_not_low (r : text) : Prop :=
  match read_uescape r with
  | UCode u2 _ => is_low_surrogate u2 = false
  | UBad | UAbsent => True
  end.

Lemma scan_char_inv (s : text) (c : N) (r : text) :
  Forall scalar s -> scan_char s = StepChar c r ->
  c < 0x110000
  /\ (is_high_surrogate c = true -> next_not_low r)
  /\ (is_low_surrogate c = true -> exists r', read_uescape s = UCode c r').
Proof.
  intros Hs. destruct s as [|a s1]; [easy|]. cbn [scan_char].
  destruct (a =? 34) eqn:Ea; [easy|].
  destruct (a =? 92) eqn:Eb.
  - destruct s1 as [|e r1]; [easy|].
    destruct (e =? 117) eqn:Ee.
    + destruct r1 as [|h1 [|h2 [|h3 [|h4 r2]]]]; try easy.
      destruct (hex4 h1 h2 h3 h4) as [u|] eqn:Eh; [|easy].
      pose proof (hex4_bound _ _ _ _ _ Eh) as Hu.
      assert (Hread : read_uescape (a :: e :: h1 :: h2 :: h3 :: h4 :: r2)
                      = UCode u r2).
      { unfold read_uescape. now rewrite Eb, Ee, Eh. }
      destruct (is_high_surrogate u) eqn:Ehigh.
      * destruct (read_uescape r2) as [| |u2 r3] eqn:Er; [|easy|].
        -- intros [= <- <-]. split; [lia|]. split.
           ++ intros _. unfold next_not_low. now rewrite Er.
           ++ intros Hl. rewrite (high_not_low _ Ehigh) in Hl. easy.
        -- destruct (is_low_surrogate u2) eqn:El.
           ++ intros [= <- <-].
              pose proof (joined_range _ _ Ehigh El) as Hj.
              destruct (not_surrogate_above _ (proj1 Hj)) as [H1 H2].
              rewrite H1, H2. split; [lia|]. split; easy.
           ++ intros [= <- <-]. split; [lia|]. split.
              ** intros _. unfold next_not_low. now rewrite Er.
              ** intros Hl. rewrite (high_not_low _ Ehigh) in Hl. easy.
      * intros [= <- <-]. split; [lia|]. split; [congruence|].
        intros _. now exists r2.
    + destruct (unescape e) as [x|] eqn:Ex; [|easy].
      intros [= <- <-]. destruct (unescape_values _ _ Ex) as (H1 & H2 & H3).
      rewrite H2, H3. split; [assumption|]. split; easy.
  - destruct (a <=? 31); [easy|]. intros [= <- <-].
    inversion Hs as [|? ? [Ha1 Ha2] _]; subst.
    destruct (surrogate_cases _ Ha2) as [H1 H2]. rewrite H1, H2.
    split; [assumption|]. split; easy.
Qed.

Lemma scanstring_ok_aux (n : nat) :
  forall s out rest, length s = n -> Forall scalar s ->
    scanstring s = Some (out, rest) ->
    text_ok out = true
    /\ match out with
       | c :: _ => is_low_surrogate c = true ->
                   exists r', read_uescape s = UCode c r'
       | [] => True
       end.
Proof.
  induction n as [n IH] using lt_wf_ind. intros s out rest Hn Hs.
  rewrite scanstring_unfold. pose proof (scan_char_suffix s) as Hsuf.
  destruct (scan_char s) as [r|c r|] eqn:Estep; [| |easy].
  - now intros [= <- _].
  - destruct (scanstring r) as [[out' rest']|] eqn:E; [|easy].
    cbn [push]. intros [= <- <-].
    destruct (scan_char_inv _ _ _ Hs Estep) as (Hc & Hhigh & Hlow).
    assert (Hr : Forall scalar r) by (eapply proper_suffix_Forall; eassumption).
    destruct (IH (length r)) with (s := r) (out := out') (rest := rest')
      as [Hok Hhead]; try easy.
    { subst n. now apply proper_suffix_length. }
    split; [|assumption].
    cbn [text_ok]. rewrite Hok, andb_true_r.
    apply andb_true_iff; split; [now apply N.ltb_lt|].
    unfold pair_free. destruct (is_high_surrogate c) eqn:Eh; [|reflexivity].
    destruct out' as [|c2 out']; [reflexivity|]. cbn [andb negb].
    destruct (is_low_surrogate c2) eqn:El; [|reflexivity].
    destruct (Hhead eq_refl) as [r' Hread].
    specialize (Hhigh eq_refl). unfold next_not_low in Hhigh.
    rewrite Hread in Hhigh. congruence.
Qed.

Lemma scanstring_ok (s out rest : text) :
  Forall scalar s -> scanstring s = Some (out, rest) -> text_ok out = true.
Proof.
  intros Hs E. now destruct (scanstring_ok_aux (length s) s out rest eq_refl Hs E).
Qed.

(** ** Python [dict] with [str] keys: insertion-ordered association lists *)

Section Dict.
Context {V : Type}.

(** [d.get(k)] *)
Fixpoint dict_get (k : text) (d : list (text * V)) : option V :=
  match d with
  | [] => None
  | (k', v) :: d' => if text_eqb k k' then Some v else dict_get k d'
  end.

(** [k in d] *)
Definition dict_contains (k : text) (d : list (text * V)) : bool :=
  match dict_get k d with Some _ => true | None => false end.

(** [d[k] = v]: an existing key keeps its position, a new key goes last. *)
Fixpoint dict_set (k : text) (v : V) (d : list (text * V)) : list (text * V) :=
  match d with
  | [] => [(k, v)]
  | (k', v') :: d' =>
      if text_eqb k k' then (k', v) :: d' else (k', v') :: dict_set k v d'
  end.

(** [d.update(other)] *)
Definition dict_update (d other : list (text * V)) : list (text * V) :=
  fold_left (fun acc kv => dict_set (fst kv) (snd kv) acc) other d.

Definition dict_keys (d : list (text * V)) : list text := map fst d.

Fixpoint keys_unique (ks : list text) : bool :=
  match ks with
  | [] => true
  | k :: r => negb (existsb (text_eqb k) r) && keys_unique r
  end.

Lemma existsb_text_eqb (k : text) (ks : list text) :
  existsb (text_eqb k) ks = true <-> In k ks.
Proof.
  rewrite existsb_exists. split.
  - intros (x & Hin & E). apply text_eqb_eq in E. now subst.
  - intros Hin. exists k. split; [assumption|apply text_eqb_refl].
Qed.

Lemma keys_unique_NoDup (ks : list text) : keys_unique ks = true <-> NoDup ks.
Proof.
  induction ks as [|k ks IH]; cbn [keys_unique].
  - split; [constructor|reflexivity].
  - rewrite andb_true_iff, negb_true_iff, IH. split.
    + intros [Hn Hd]. constructor; [|assumption].
      intros Hin. apply existsb_text_eqb in Hin. congruence.
    + intros H. inversion H as [|? ? Hn Hd]; subst. split; [|assumption].
      destruct (existsb (text_eqb k) ks) eqn:E; [|reflexivity].
      apply existsb_text_eqb in E. contradiction.
Qed.

Lemma dict_get_In (k : text) (d : list (text * V)) (v : V) :
  dict_get k d = Some v -> In (k, v) d.
Proof.
  induction d as [|[k' v'] d IH]; cbn [dict_get]; [easy|].
  destruct (text_eqb k k') eqn:E.
  - apply text_eqb_eq in E. subst. intros [= ->]. now left.
  - intros H. right. now apply IH.
Qed.

Lemma dict_get_None (k : text) (d : list (text * V)) :
  dict_get k d = None <-> ~ In k (dict_keys d).
Proof.
  induction d as [|[k' v'] d IH]; cbn [dict_get dict_keys map fst In].
  - tauto.
  - destruct (text_eqb k k') eqn:E.
    + apply text_eqb_eq in E. subst. split; [easy|]. intros H. exfalso. tauto.
    + apply text_eqb_neq in E. rewrite IH. unfold dict_keys.
      split; [intros H [H1|H1]; [congruence|tauto]|tauto].
Qed.

Lemma dict_get_unique (k : text) (v : V) (d : list (text * V)) :
  NoDup (dict_keys d) -> In (k, v) d -> dict_get k d = Some v.
Proof.
  induction d as [|[k' v'] d IH]; cbn [dict_get dict_keys map fst In]; [easy|].
  intros Hnd [Hin|Hin].
  - injection Hin as -> ->. now rewrite text_eqb_refl.
  - inversion Hnd as [|? ? Hn Hd]; subst.
    destruct (text_eqb k k') eqn:E.
    + apply text_eqb_eq in E. subst. exfalso. apply Hn.
      change k' with (fst (k', v)). now apply in_map.
    + now apply IH.
Qed.

Lemma dict_get_set_same (k : text) (v : V) (d : list (text * V)) :
  dict_get k (dict_set k v d) = Some v.
Proof.
  induction d as [|[k' v'] d IH]; cbn [dict_set dict_get].
  - now rewrite text_eqb_refl.
  - destruct (text_eqb k k') eqn:E; cbn [dict_get]; now rewrite E.
Qed.

Lemma dict_get_set_other (k k' : text) (v : V) (d : list (text * V)) :
  k <> k' -> dict_get k' (dict_set k v d) = dict_get k' d.
Proof.
  intros Hne. induction d as [|[k0 v0] d IH]; cbn [dict_set dict_get].
  - replace (text_eqb k' k) with false; [reflexivity|].
    symmetry. apply text_eqb_neq. congruence.
  - destruct (text_eqb k k0) eqn:E; cbn [dict_get]; [|now rewrite IH].
    apply text_eqb_eq in E. subst k0.
    replace (text_eqb k' k) with false; [reflexivity|].
    symmetry. apply text_eqb_neq. congruence.
Qed.

Lemma dict_set_fresh (k : text) (v : V) (d : list (text * V)) :
  dict_get k d = None -> dict_set k v d = d ++ [(k, v)].
Proof.
  induction d as [|[k' v'] d IH]; cbn [dict_set dict_get app]; [easy|].
  destruct (text_eqb k k'); [easy|]. intros H. now rewrite IH.
Qed.

Lemma dict_set_present (k : text) (v : V) (d : list (text * V)) :
  dict_get k d = Some v -> dict_set k v d = d.
Proof.
  induction d as [|[k' v'] d IH]; cbn [dict_set dict_get]; [easy|].
  destruct (text_eqb k k'); [now intros [= ->]|]. intros H. now rewrite IH.
Qed.

Lemma dict_keys_set (k : text) (v : V) (d : list (text * V)) :
  dict_keys (dict_set k v d)
  = if dict_contains k d then dict_keys d else dict_keys d ++ [k].
Proof.
  unfold dict_contains.
  induction d as [|[k' v'] d IH]; cbn [dict_set dict_get dict_keys map fst].
  - reflexivity.
  - destruct (text_eqb k k') eqn:E; cbn [dict_keys map fst]; [reflexivity|].
    unfold dict_keys in IH. rewrite IH. now destruct (dict_get k d).
Qed.

Lemma dict_set_NoDup (k : text) (v : V) (d : list (text * V)) :
  NoDup (dict_keys d) -> NoDup (dict_keys (dict_set k v d)).
Proof.
  intros Hnd. rewrite dict_keys_set. unfold dict_contains.
  destruct (dict_get k d) eqn:E; [assumption|].
  apply dict_get_None in E.
  apply NoDup_rev in Hnd. rewrite <- (rev_involutive (dict_keys d ++ [k])).
  apply NoDup_rev. rewrite rev_app_distr. cbn. constructor; [|assumption].
  now rewrite <- in_rev.
Qed.

Lemma dict_set_Forall (P : text * V -> Prop) (k : text) (v : V)
      (d : list (text * V)) :
  (forall k', k = k' -> P (k', v)) -> Forall P d -> Forall P (dict_set k v d).
Proof.
  intros Hkv Hd. induction Hd as [|[k' v'] d Hx Hd IH]; cbn [dict_set].
  - constructor; [now apply Hkv|constructor].
  - destruct (text_eqb k k') eqn:E.
    + apply text_eqb_eq in E. constructor; [now apply Hkv|assumption].
    + constructor; assumption.
Qed.

Lemma dict_update_cons (d : list (text * V)) (kv : text * V)
      (other : list (text * V)) :
  dict_update d (kv :: other) = dict_update (dict_set (fst kv) (snd kv) d) other.
Proof. reflexivity. Qed.

Lemma dict_update_NoDup (other d : list (text * V)) :
  NoDup (dict_keys d) -> NoDup (dict_keys (dict_update d other)).
Proof.
  revert d. induction other as [|[k v] other IH]; intros d Hd; [assumption|].
  rewrite dict_update_cons. apply IH. now apply dict_set_NoDup.
Qed.

Lemma dict_update_Forall (P : text * V -> Prop) (other d : list (text * V)) :
  Forall P other -> Forall P d -> Forall P (dict_update d other).
Proof.
  revert d. induction other as [|[k v] other IH]; intros d Ho Hd; [assumption|].
  inversion Ho as [|? ? Hkv Ho']; subst.
  rewrite dict_update_cons. apply IH; [assumption|].
  apply dict_set_Forall; [|assumption]. cbn. now intros k' <-.
Qed.

(** Entries of [other] win; keys that [other] lacks keep their value. *)
Lemma dict_get_update_other (k : text) (other d : list (text * V)) :
  dict_get k other = None ->
  dict_get k (dict_update d other) = dict_get k d.
Proof.
  revert d. induction other as [|[k0 v0] other IH]; intros d; [easy|].
  cbn [dict_get]. destruct (text_eqb k k0) eqn:E; [easy|]. intros H.
  rewrite dict_update_cons, IH by assumption. cbn [fst snd].
  apply dict_get_set_other. apply text_eqb_neq in E. congruence.
Qed.

Lemma dict_get_update_new (k : text) (v : V) (other d : list (text * V)) :
  NoDup (dict_keys other) -> dict_get k other = Some v ->
  dict_get k (dict_update d other) = Some v.
Proof.
  revert d. induction other as [|[k0 v0] other IH]; intros d Hnd; [easy|].
  inversion Hnd as [|? ? Hn Hd]; subst.
  cbn [dict_get]. rewrite dict_update_cons. cbn [fst snd].
  destruct (text_eqb k k0) eqn:E.
  - apply text_eqb_eq in E. subst. intros [= ->].
    rewrite dict_get_update_other; [apply dict_get_set_same|].
    now apply dict_get_None.
  - intros H. now apply IH.
Qed.

Lemma dict_update_fresh (other d : list (text * V)) :
  NoDup (dict_keys (d ++ other)) -> dict_update d other = d ++ other.
Proof.
  revert d. induction other as [|[k v] other IH]; intros d Hnd.
  - now rewrite app_nil_r.
  - rewrite dict_update_cons. cbn [fst snd].
    assert (Hk : dict_get k d = None).
    { apply dict_get_None. unfold dict_keys in *. rewrite map_app in Hnd.
      cbn in Hnd. apply NoDup_remove_2 in Hnd. rewrite in_app_iff in Hnd.
      tauto. }
    rewrite dict_set_fresh by assumption.
    rewrite IH; rewrite <- app_assoc; [reflexivity|assumption].
Qed.

Lemma dict_update_empty (other : list (text * V)) :
  NoDup (dict_keys other) -> dict_update [] other = other.
Proof. intros H. now rewrite dict_update_fresh. Qed.

Lemma dict_update_same (other d : list (text * V)) :
  (forall k v, In (k, v) other -> dict_get k d = Some v) ->
  dict_update d other = d.
Proof.
  induction other as [|[k v] other IH]; intros H; [reflexivity|].
  rewrite dict_update_cons. cbn [fst snd].
  rewrite dict_set_present by (apply H; now left).
  apply IH. intros k' v' Hin. apply H. now right.
Qed.

Lemma dict_update_self (d : list (text * V)) :
  NoDup (dict_keys d) -> dict_update d d = d.
Proof.
  intros Hnd. apply dict_update_same. intros k v Hin.
  now apply dict_get_unique.
Qed.

End Dict.

(** ** Python [float]

    [float.__repr__] and [float(literal)] are not modelled bit by bit; the
    development is parametric in them. What it uses is that the
    encoder's [floatstr] prints [NaN], [Infinity], [-Infinity] or a literal
    of the number grammar with a fraction or an exponent, and that reading
    the printed literal gives the same float ([repr] round-trips). Floats
    are compared structurally: all NaNs are one value. *)

Class PyFloat : Type := {
  float : Type;
  float_of_literal : text -> float;
  float_nan : float;
  float_inf : float;
  float_neg_inf : float;
  floatstr : float -> text;
  floatstr_parses : forall f : float,
    (floatstr f = lit "NaN" /\ f = float_nan)
    \/ (floatstr f = lit "Infinity" /\ f = float_inf)
    \/ (floatstr f = lit "-Infinity" /\ f = float_neg_inf)
    \/ (match_number (floatstr f) = Some (true, floatstr f, [])
        /\ float_of_literal (floatstr f) = f)
}.

(** ** Scanner results and exceptions *)

Inductive scan_result (A : Type) : Type :=
| Scanned (a : A) (rest : text)
| DecodeError
| OutOfFuel.
Arguments Scanned {A} a rest.
Arguments DecodeError {A}.
Arguments OutOfFuel {A}.

Definition scan_map {A B} (f : A -> B) (r : scan_result A) : scan_result B :=
  match r with
  | Scanned a rest => Scanned (f a) rest
  | DecodeError => DecodeError
  | OutOfFuel => OutOfFuel
  end.

Definition is_ws (c : N) : bool :=
  (c =? 32) || (c =? 9) || (c =? 10) || (c =? 13).

Fixpoint skip_ws (s : text) : text :=
  match s with
  | c :: r => if is_ws c then skip_ws r else s
  | [] => []
  end.

(** Python exceptions the script can meet. *)
Inductive exn : Type :=
| OSError (errno : nat)
| UnicodeDecodeError
| UnicodeEncodeError
| JSONDecodeError
| RecursionError
| TypeError
| KeyError
| AttributeError.

Inductive outcome (A : Type) : Type :=
| Return (a : A)
| Raise (e : exn).
Arguments Return {A} a.
Arguments Raise {A} e.

(** ** JSON values as Python objects *)

Section Json.
Context {F : PyFloat}.

Unset Elimination Schemes.
Inductive value : Type :=
| VNone
| VBool (b : bool)
| VInt (z : Z)
| VFloat (f : float)
| VStr (s : text)
| VList (l : list value)
| VDict (d : list (text * value)).
Set Elimination Schemes.

Definition value_induction (P : value -> Prop)
  (HNone : P VNone)
  (HBool : forall b, P (VBool b))
  (HInt : forall z, P (VInt z))
  (HFloat : forall f, P (VFloat f))
  (HStr : forall s, P (VStr s))
  (HList : forall l, Forall P l -> P (VList l))
  (HDict : forall d, Forall (fun kv => P (snd kv)) d -> P (VDict d)) :
  forall v, P v :=
  fix go (v : value) : P v :=
    match v with
    | VNone => HNone
    | VBool b => HBool b
    | VInt z => HInt z
    | VFloat f => HFloat f
    | VStr s => HStr s
    | VList l =>
        HList l ((fix all (l : list value) : Forall P l :=
                    match l with
                    | [] => Forall_nil _
                    | x :: l' => Forall_cons x (go x) (all l')
                    end) l)
    | VDict d =>
        HDict d ((fix all (d : list (text * value))
                  : Forall (fun kv => P (snd kv)) d :=
                    match d with
                    | [] => Forall_nil _
                    | kv :: d' =>
                        Forall_cons (P := fun kv => P (snd kv)) kv
                                    (go (snd kv)) (all d')
                    end) d)
    end.

Definition dict : Type := list (text * value).

(** *** [json.dumps(obj, indent=2)]: the indenting encoder *)

(** ['\n' + ' ' * (2 * level)] *)
Definition newline_indent (level : nat) : text := 10 :: repeat 32 (2 * level).

Fixpoint encode (level : nat) (o : value) : text :=
  match o with
  | VNone => lit "null"
  | VBool true => lit "true"
  | VBool false => lit "false"
  | VInt z => int_repr z
  | VFloat f => floatstr f
  | VStr s => encode_basestring_ascii s
  | VList [] => lit "[]"
  | VList (x :: l) =>
      91 :: newline_indent (S level) ++ encode (S level) x
      ++ flat_map (fun y => 44 :: newline_indent (S level) ++ encode (S level) y) l
      ++ newline_indent level ++ [93]
  | VDict [] => lit "{}"
  | VDict ((k, x) :: d) =>
      123 :: newline_indent (S level)
      ++ encode_basestring_ascii k ++ lit ": " ++ encode (S level) x
      ++ flat_map (fun kv => 44 :: newline_indent (S level)
                             ++ encode_basestring_ascii (fst kv) ++ lit ": "
                             ++ encode (S level) (snd kv)) d
      ++ newline_indent level ++ [125]
  end.

Definition json_dumps (o : value) : text := encode 0 o.

(** *** [json.loads]: the scanner *)

(** The constants and numbers of [scan_once]. *)
Definition scan_atom (s : text) : scan_result value :=
  match strip_prefix (lit "null") s with
  | Some rest => Scanned VNone rest
  | None =>
  match strip_prefix (lit "true") s with
  | Some rest => Scanned (VBool true) rest
  | None =>
  match strip_prefix (lit "false") s with
  | Some rest => Scanned (VBool false) rest
  | None =>
  match strip_prefix (lit "NaN") s with
  | Some rest => Scanned (VFloat float_nan) rest
  | None =>
  match strip_prefix (lit "Infinity") s with
  | Some rest => Scanned (VFloat float_inf) rest
  | None =>
  match strip_prefix (lit "-Infinity") s with
  | Some rest => Scanned (VFloat float_neg_inf) rest
  | None =>
  match match_number s with
  | Some (true, literal, rest) => Scanned (VFloat (float_of_literal literal)) rest
  | Some (false, literal, rest) => Scanned (VInt (int_of_literal literal)) rest
  | None => DecodeError
  end end end end end end end.

(** [dict(pairs)]: a repeated key keeps its first position and its last
    value. *)
Definition dict_of_pairs (pairs : list (text * value)) : dict :=
  dict_update [] pairs.

(** [scan_once], [JSONArray] and [JSONObject]; the array and object loops
    start at their first element. *)
Fixpoint scan_once (fuel : nat) (s : text) {struct fuel} : scan_result value :=
  match fuel with
  | O => OutOfFuel
  | S fuel =>
      match s with
      | [] => DecodeError
      | c :: r =>
          if c =? 34 then
            match scanstring r with
            | Some (str, rest) => Scanned (VStr str) rest
            | None => DecodeError
            end
          else if c =? 123 then
            match skip_ws r with
            | [] => DecodeError
            | c1 :: r1 =>
                if c1 =? 125 then Scanned (VDict []) r1
                else scan_map (fun ps => VDict (dict_of_pairs ps))
                              (parse_pairs fuel (c1 :: r1))
            end
          else if c =? 91 then
            match skip_ws r with
            | [] => DecodeError
            | c1 :: r1 =>
                if c1 =? 93 then Scanned (VList []) r1
                else scan_map VList (parse_items fuel (c1 :: r1))
            end
          else scan_atom s
      end
  end
with parse_items (fuel : nat) (s : text) {struct fuel}
  : scan_result (list value) :=
  match fuel with
  | O => OutOfFuel
  | S fuel =>
      match scan_once fuel s with
      | Scanned v r =>
          match skip_ws r with
          | [] => DecodeError
          | c :: r1 =>
              if c =? 93 then Scanned [v] r1
              else if c =? 44 then
                scan_map (cons v) (parse_items fuel (skip_ws r1))
              else DecodeError
          end
      | DecodeError => DecodeError
      | OutOfFuel => OutOfFuel
      end
  end
with parse_pairs (fuel : nat) (s : text) {struct fuel}
  : scan_result (list (text * value)) :=
  match fuel with
  | O => OutOfFuel
  | S fuel =>
      match s with
      | [] => DecodeError
      | q :: r =>
          if q =? 34 then
            match scanstring r with
            | None => DecodeError
            | Some (key, r1) =>
                match skip_ws r1 with
                | [] => DecodeError
                | colon :: r2 =>
                    if colon =? 58 then
                      match scan_once fuel (skip_ws r2) with
                      | Scanned v r3 =>
                          match skip_ws r3 with
                          | [] => DecodeError
                          | c :: r4 =>
                              if c =? 125 then Scanned [(key, v)] r4
                              else if c =? 44 then
                                scan_map (cons (key, v))
                                         (parse_pairs fuel (skip_ws r4))
                              else DecodeError
                          end
                      | DecodeError => DecodeError
                      | OutOfFuel => OutOfFuel
                      end
                    else DecodeError
                end
            end
          else DecodeError
      end
  end.

(** Fuel that always suffices for a text of this length. *)
Definition scan_fuel (s : text) : nat := 2 * length s + 1.

(** [JSONDecoder.decode]: one value between optional whitespace. *)
Definition decode (s : text) : outcome value :=
  match scan_once (scan_fuel s) (skip_ws s) with
  | Scanned v rest =>
      match skip_ws rest with
      | [] => Return v
      | _ :: _ => Raise JSONDecodeError
      end
  | DecodeError => Raise JSONDecodeError
  | OutOfFuel => Raise RecursionError
  end.

Definition starts_with_bom (s : text) : bool :=
  match s with
  | c :: _ => c =? 0xFEFF
  | [] => false
  end.

(** [json.loads(s)] for a [str]: a leading BOM is refused. *)
Definition json_loads (s : text) : outcome value :=
  if starts_with_bom s then Raise JSONDecodeError else decode s.

End Json.

Arguments value : clear implicits.
Arguments value {F}.
Arguments dict {F}.

(** ** A computable instance of [PyFloat]

    Floats with integral values, printed as [<int>.0]; a literal is read by
    its integer part. It instantiates the interface where a statement is
    evaluated on concrete data. *)

Inductive int_float : Type :=
| FFinite (z : Z)
| FNan
| FInf
| FNegInf.

Definition int_float_str (f : int_float) : text :=
  match f with
  | FFinite z => int_repr z ++ lit ".0"
  | FNan => lit "NaN"
  | FInf => lit "Infinity"
  | FNegInf => lit "-Infinity"
  end.

Definition literal_int_part (l : text) : text :=
  let (sg, r) := match_sign l in sg ++ fst (span_digits r).

Definition int_float_of_literal (l : text) : int_float :=
  FFinite (int_of_literal (literal_int_part l)).

Lemma span_digits_stop (ds rest : text) :
  Forall (fun c => is_digit c = true) ds ->
  match rest with c :: _ => is_digit c = false | [] => True end ->
  span_digits (ds ++ rest) = (ds, rest).
Proof.
  intros Hds Hr. induction Hds as [|c ds Hc _ IH]; cbn [app span_digits].
  - destruct rest as [|c rest]; [reflexivity|]. cbn. now rewrite Hr.
  - now rewrite Hc, IH.
Qed.

Lemma int_float_finite_parses (z : Z) :
  match_number (int_repr z ++ lit ".0") = Some (true, int_repr z ++ lit ".0", [])
  /\ literal_int_part (int_repr z ++ lit ".0") = int_repr z.
Proof.
  assert (Hshape : forall d ds, 49 <= d <= 57 ->
            Forall (fun c => is_digit c = true) ds ->
            match_number (d :: ds ++ lit ".0") = Some (true, d :: ds ++ lit ".0", [])
            /\ literal_int_part (d :: ds ++ lit ".0") = d :: ds).
  { intros d ds Hd Hds.
    unfold match_number, literal_int_part, match_sign.
    replace (d =? 45) with false by (symmetry; apply N.eqb_neq; lia).
    unfold match_int.
    replace (d =? 48) with false by (symmetry; apply N.eqb_neq; lia).
    assert (Hdig : is_digit d = true)
      by (apply andb_true_iff; split; apply N.leb_le; lia).
    rewrite Hdig. cbn [span_digits]. rewrite Hdig.
    rewrite span_digits_stop by easy. split; reflexivity. }
  destruct z as [|p|p]; [split; reflexivity| |]; cbn [int_repr];
    destruct (N_repr_shape p) as (d & ds & -> & Hd & Hds);
    destruct (Hshape d ds Hd Hds) as [H1 H2].
  - split; assumption.
  - split.
    + cbn [app]. unfold match_number in *. cbn [match_sign].
      change (45 =? 45) with true. cbv iota.
      unfold match_sign in H1.
      replace (d =? 45) with false in H1 by (symmetry; apply N.eqb_neq; lia).
      destruct (match_int (d :: ds ++ lit ".0")) as [[ip s2]|]; [|easy].
      destruct (match_frac s2) as [fr s3]. destruct (match_exp s3) as [ex s4].
      cbn [app] in *. now injection H1 as -> -> ->.
    + cbn [app]. unfold literal_int_part in *. cbn [match_sign].
      change (45 =? 45) with true. cbv iota.
      unfold match_sign in H2.
      replace (d =? 45) with false in H2 by (symmetry; apply N.eqb_neq; lia).
      cbn [app] in *. now rewrite H2.
Qed.

Lemma int_float_str_parses (f : int_float) :
  (int_float_str f = lit "NaN" /\ f = FNan)
  \/ (int_float_str f = lit "Infinity" /\ f = FInf)
  \/ (int_float_str f = lit "-Infinity" /\ f = FNegInf)
  \/ (match_number (int_float_str f) = Some (true, int_float_str f, [])
      /\ int_float_of_literal (int_float_str f) = f).
Proof.
  destruct f as [z| | |]; [|tauto|tauto|tauto].
  do 3 right. destruct (int_float_finite_parses z) as [H1 H2].
  split; [exact H1|]. unfold int_float_of_literal. cbn [int_float_str].
  now rewrite H2, int_of_literal_repr.
Qed.

Definition int_floats : PyFloat := {|
  float := int_float;
  float_of_literal := int_float_of_literal;
  float_nan := FNan;
  float_inf := FInf;
  float_neg_inf := FNegInf;
  floatstr := int_float_str;
  floatstr_parses := int_float_str_parses
|}.

(** ** The scanner: what is left, fuel, totality *)

Definition suffix (r s : text) : Prop := exists p, s = p ++ r.

Lemma suffix_refl (s : text) : suffix s s.
Proof. now exists []. Qed.

Lemma suffix_proper (a b c : text) :
  suffix a b -> proper_suffix b c -> proper_suffix a c.
Proof.
  intros (p & ->) (x & q & ->). exists x, (q ++ p). now rewrite <- app_assoc.
Qed.

Lemma proper_suffix_suffix (a b c : text) :
  proper_suffix a b -> suffix b c -> proper_suffix a c.
Proof.
  intros (x & q & ->) (p & ->). destruct p as [|y p].
  - now exists x, q.
  - exists y, (p ++ x :: q). cbn. now rewrite <- app_assoc.
Qed.

Lemma suffix_length (r s : text) : suffix r s -> (length r <= length s)%nat.
Proof. intros (p & ->). rewrite length_app. lia. Qed.

Lemma suffix_Forall (P : N -> Prop) (r s : text) :
  suffix r s -> Forall P s -> Forall P r.
Proof. intros (p & ->) H. apply Forall_app in H. tauto. Qed.

Lemma skip_ws_suffix (s : text) : suffix (skip_ws s) s.
Proof.
  induction s as [|c s IH]; cbn [skip_ws]; [apply suffix_refl|].
  destruct (is_ws c); [|apply suffix_refl].
  destruct IH as (p & E). exists (c :: p). cbn. now rewrite <- E.
Qed.

Lemma skip_ws_proper (r s : text) :
  proper_suffix r (skip_ws s) -> proper_suffix r s.
Proof. intros H. eapply proper_suffix_suffix; [exact H|apply skip_ws_suffix]. Qed.

Lemma skip_ws_cons (s : text) (c : N) (r : text) :
  skip_ws s = c :: r -> proper_suffix r s.
Proof.
  intros E. apply skip_ws_proper. rewrite E. apply proper_suffix_cons.
Qed.

(** The number matcher splits its input. *)
Lemma span_digits_split (s : text) :
  s = fst (span_digits s) ++ snd (span_digits s).
Proof.
  induction s as [|c s IH]; cbn [span_digits]; [reflexivity|].
  destruct (is_digit c); [|reflexivity].
  destruct (span_digits s). cbn in *. now rewrite <- IH.
Qed.

Lemma match_number_split (s : text) (b : bool) (m r : text) :
  match_number s = Some (b, m, r) -> s = m ++ r /\ m <> [].
Proof.
  unfold match_number.
  assert (Hsign : s = fst (match_sign s) ++ snd (match_sign s)).
  { destruct s as [|c s]; [reflexivity|]. cbn. now destruct (c =? 45). }
  destruct (match_sign s) as [sg s1]. cbn [fst snd] in Hsign.
  destruct (match_int s1) as [[ip s2]|] eqn:Ei; [|easy].
  assert (Hint : s1 = ip ++ s2 /\ ip <> []).
  { destruct s1 as [|c s1]; [easy|]. cbn in Ei.
    destruct (c =? 48); [now injection Ei as <- <-|].
    destruct (is_digit c); [|easy].
    pose proof (span_digits_split s1) as Hs. destruct (span_digits s1).
    injection Ei as <- <-. cbn in *. now rewrite <- Hs. }
  assert (Hfrac : s2 = fst (match_frac s2) ++ snd (match_frac s2)).
  { destruct s2 as [|dot [|d s2]]; try reflexivity. cbn [match_frac].
    destruct ((dot =? 46) && is_digit d); [|reflexivity].
    pose proof (span_digits_split s2) as Hs. destruct (span_digits s2).
    cbn in *. now rewrite <- Hs. }
  destruct (match_frac s2) as [fr s3]. cbn [fst snd] in Hfrac.
  assert (Hexp : s3 = fst (match_exp s3) ++ snd (match_exp s3)).
  { destruct s3 as [|e s3]; [reflexivity|]. cbn [match_exp].
    destruct ((e =? 101) || (e =? 69)); [|reflexivity].
    assert (Hsg : s3 = fst (match_exp_sign s3) ++ snd (match_exp_sign s3)).
    { destruct s3 as [|c s3]; [reflexivity|]. cbn.
      now destruct ((c =? 43) || (c =? 45)). }
    destruct (match_exp_sign s3) as [sg' r1]. cbn [fst snd] in Hsg.
    pose proof (span_digits_split r1) as Hs. destruct (span_digits r1) as [ds r2].
    cbn [fst snd] in Hs. destruct ds; [reflexivity|].
    cbn [fst snd]. rewrite Hsg, Hs. cbn. now rewrite <- app_assoc. }
  destruct (match_exp s3) as [ex s4]. cbn [fst snd] in Hexp.
  intros [= <- <- <-]. destruct Hint as [Hint Hne]. split.
  - rewrite Hsign, Hint, Hfrac, Hexp. now rewrite <- !app_assoc.
  - destruct sg; [destruct ip; easy|easy].
Qed.

Lemma split_proper_suffix (p r : text) : p <> [] -> proper_suffix r (p ++ r).
Proof. destruct p as [|c p]; [easy|]. intros _. now exists c, p. Qed.

Section Scanner.
Context {F : PyFloat}.

Lemma scan_atom_suffix (s : text) (v : value) (r : text) :
  scan_atom s = Scanned v r -> proper_suffix r s.
Proof.
  unfold scan_atom.
  repeat lazymatch goal with
         | |- context [strip_prefix ?p s] =>
             let E := fresh "E" in
             destruct (strip_prefix p s) eqn:E;
             [apply strip_prefix_Some in E; intros [= <- <-]; subst s;
              now apply split_proper_suffix|clear E]
         end.
  destruct (match_number s) as [[[b m] r']|] eqn:E; [|easy].
  apply match_number_split in E as [-> Hne].
  destruct b; intros [= <- <-]; now apply split_proper_suffix.
Qed.

Lemma scan_map_Scanned {A B} (f : A -> B) (x : scan_result A) (b : B)
      (r : text) :
  scan_map f x = Scanned b r -> exists a, x = Scanned a r /\ b = f a.
Proof. destruct x; cbn; try easy. intros [= <- <-]. eauto. Qed.

Lemma scan_suffix (fuel : nat) :
  (forall s v r, scan_once fuel s = Scanned v r -> proper_suffix r s)
  /\ (forall s vs r, parse_items fuel s = Scanned vs r -> proper_suffix r s)
  /\ (forall s ps r, parse_pairs fuel s = Scanned ps r -> proper_suffix r s).
Proof.
  induction fuel as [|fuel (IH1 & IH2 & IH3)]; [easy|].
  split; [|split]; intros s; cbn [scan_once parse_items parse_pairs].
  - intros v r. destruct s as [|c s1]; [easy|].
    destruct (c =? 34).
    { destruct (scanstring s1) as [[str rest]|] eqn:E; [|easy].
      intros [= _ <-]. apply proper_suffix_cons_r. eapply scanstring_suffix, E. }
    destruct (c =? 123).
    { destruct (skip_ws s1) as [|c1 r1] eqn:Ews; [easy|].
      destruct (c1 =? 125).
      - intros [= _ <-]. apply proper_suffix_cons_r. eapply skip_ws_cons, Ews.
      - intros H. apply scan_map_Scanned in H as (ps & H & _).
        apply IH3 in H. rewrite <- Ews in H.
        apply proper_suffix_cons_r. now apply skip_ws_proper. }
    destruct (c =? 91).
    { destruct (skip_ws s1) as [|c1 r1] eqn:Ews; [easy|].
      destruct (c1 =? 93).
      - intros [= _ <-]. apply proper_suffix_cons_r. eapply skip_ws_cons, Ews.
      - intros H. apply scan_map_Scanned in H as (ps & H & _).
        apply IH2 in H. rewrite <- Ews in H.
        apply proper_suffix_cons_r. now apply skip_ws_proper. }
    apply scan_atom_suffix.
  - intros vs r. destruct (scan_once fuel s) as [v r0| |] eqn:E; try easy.
    apply IH1 in E.
    destruct (skip_ws r0) as [|c r1] eqn:Ews; [easy|].
    apply skip_ws_cons in Ews.
    assert (Hr1 : proper_suffix r1 s) by (eapply proper_suffix_trans; eassumption).
    destruct (c =? 93); [now intros [= _ <-]|].
    destruct (c =? 44); [|easy].
    intros H. apply scan_map_Scanned in H as (ps & H & _). apply IH2 in H.
    eapply proper_suffix_trans; [|exact Hr1]. now apply skip_ws_proper.
  - intros ps r. destruct s as [|q s1]; [easy|].
    destruct (q =? 34); [|easy].
    destruct (scanstring s1) as [[key r1]|] eqn:Ek; [|easy].
    apply scanstring_suffix in Ek.
    destruct (skip_ws r1) as [|colon r2] eqn:Ews1; [easy|].
    apply skip_ws_cons in Ews1.
    destruct (colon =? 58); [|easy].
    destruct (scan_once fuel (skip_ws r2)) as [v r3| |] eqn:E; try easy.
    apply IH1, skip_ws_proper in E.
    destruct (skip_ws r3) as [|c r4] eqn:Ews3; [easy|].
    apply skip_ws_cons in Ews3.
    assert (Hr4 : proper_suffix r4 (q :: s1)).
    { apply proper_suffix_cons_r.
      apply proper_suffix_trans with r3; [assumption|].
      apply proper_suffix_trans with r2; [assumption|].
      now apply proper_suffix_trans with r1. }
    destruct (c =? 125); [now intros [= _ <-]|].
    destruct (c =? 44); [|easy].
    intros H. apply scan_map_Scanned in H as (ps' & H & _). apply IH3 in H.
    eapply proper_suffix_trans; [|exact Hr4]. now apply skip_ws_proper.
Qed.

(** The defining equations, one level at a time. *)
Lemma scan_once_S (fuel : nat) (s : text) :
  scan_once (S fuel) s =
  match s with
  | [] => DecodeError
  | c :: r =>
      if c =? 34 then
        match scanstring r with
        | Some (str, rest) => Scanned (VStr str) rest
        | None => DecodeError
        end
      else if c =? 123 then
        match skip_ws r with
        | [] => DecodeError
        | c1 :: r1 =>
            if c1 =? 125 then Scanned (VDict []) r1
            else scan_map (fun ps => VDict (dict_of_pairs ps))
                          (parse_pairs fuel (c1 :: r1))
        end
      else if c =? 91 then
        match skip_ws r with
        | [] => DecodeError
        | c1 :: r1 =>
            if c1 =? 93 then Scanned (VList []) r1
            else scan_map VList (parse_items fuel (c1 :: r1))
        end
      else scan_atom s
  end.
Proof. reflexivity. Qed.

Lemma parse_items_S (fuel : nat) (s : text) :
  parse_items (S fuel) s =
  match scan_once fuel s with
  | Scanned v r =>
      match skip_ws r with
      | [] => DecodeError
      | c :: r1 =>
          if c =? 93 then Scanned [v] r1
          else if c =? 44 then
            scan_map (cons v) (parse_items fuel (skip_ws r1))
          else DecodeError
      end
  | DecodeError => DecodeError
  | OutOfFuel => OutOfFuel
  end.
Proof. reflexivity. Qed.

Lemma parse_pairs_S (fuel : nat) (s : text) :
  parse_pairs (S fuel) s =
  match s with
  | [] => DecodeError
  | q :: r =>
      if q =? 34 then
        match scanstring r with
        | None => DecodeError
        | Some (key, r1) =>
            match skip_ws r1 with
            | [] => DecodeError
            | colon :: r2 =>
                if colon =? 58 then
                  match scan_once fuel (skip_ws r2) with
                  | Scanned v r3 =>
                      match skip_ws r3 with
                      | [] => DecodeError
                      | c :: r4 =>
                          if c =? 125 then Scanned [(key, v)] r4
                          else if c =? 44 then
                            scan_map (cons (key, v))
                                     (parse_pairs fuel (skip_ws r4))
                          else DecodeError
                      end
                  | DecodeError => DecodeError
                  | OutOfFuel => OutOfFuel
                  end
                else DecodeError
            end
        end
      else DecodeError
  end.
Proof. reflexivity. Qed.

Lemma scan_map_fuel {A B} (f : A -> B) (x : scan_result A) :
  scan_map f x <> OutOfFuel -> x <> OutOfFuel.
Proof. now destruct x. Qed.

Lemma scan_map_fuel_inv {A B} (f : A -> B) (x : scan_result A) :
  x <> OutOfFuel -> scan_map f x <> OutOfFuel.
Proof. now destruct x. Qed.

(** More fuel does not change a result. *)
Lemma scan_mono (fuel : nat) :
  (forall s, scan_once fuel s <> OutOfFuel ->
             scan_once (S fuel) s = scan_once fuel s)
  /\ (forall s, parse_items fuel s <> OutOfFuel ->
                parse_items (S fuel) s = parse_items fuel s)
  /\ (forall s, parse_pairs fuel s <> OutOfFuel ->
                parse_pairs (S fuel) s = parse_pairs fuel s).
Proof.
  induction fuel as [|fuel (IH1 & IH2 & IH3)]; [easy|].
  split; [|split]; intros s.
  - rewrite (scan_once_S (S fuel)), (scan_once_S fuel).
    destruct s as [|c s1]; [easy|].
    destruct (c =? 34); [easy|].
    destruct (c =? 123).
    { destruct (skip_ws s1) as [|c1 r1]; [easy|]. destruct (c1 =? 125); [easy|].
      intros H. apply scan_map_fuel in H. now rewrite IH3. }
    destruct (c =? 91); [|easy].
    destruct (skip_ws s1) as [|c1 r1]; [easy|]. destruct (c1 =? 93); [easy|].
    intros H. apply scan_map_fuel in H. now rewrite IH2.
  - rewrite (parse_items_S (S fuel)), (parse_items_S fuel). intros H.
    destruct (scan_once fuel s) as [v r| |] eqn:E; [| |easy].
    + rewrite IH1, E by (rewrite E; discriminate).
      destruct (skip_ws r) as [|c r1]; [easy|]. destruct (c =? 93); [easy|].
      destruct (c =? 44); [|easy].
      apply scan_map_fuel in H. now rewrite IH2.
    + now rewrite IH1, E by (rewrite E; discriminate).
  - rewrite (parse_pairs_S (S fuel)), (parse_pairs_S fuel). intros H.
    destruct s as [|q s1]; [easy|].
    destruct (q =? 34); [|easy].
    destruct (scanstring s1) as [[key r1]|]; [|easy].
    destruct (skip_ws r1) as [|colon r2]; [easy|].
    destruct (colon =? 58); [|easy].
    destruct (scan_once fuel (skip_ws r2)) as [v r3| |] eqn:E; [| |easy].
    + rewrite IH1, E by (rewrite E; discriminate).
      destruct (skip_ws r3) as [|c r4]; [easy|]. destruct (c =? 125); [easy|].
      destruct (c =? 44); [|easy].
      apply scan_map_fuel in H. now rewrite IH3.
    + now rewrite IH1, E by (rewrite E; discriminate).
Qed.

(** With [2 * length s + 1] units the scanner never runs out of fuel. *)
Lemma scan_total (fuel : nat) :
  (forall s, (2 * length s + 1 <= fuel)%nat -> scan_once fuel s <> OutOfFuel)
  /\ (forall s, (2 * length s + 2 <= fuel)%nat -> parse_items fuel s <> OutOfFuel)
  /\ (forall s, (2 * length s + 2 <= fuel)%nat -> parse_pairs fuel s <> OutOfFuel).
Proof.
  induction fuel as [|fuel (IH1 & IH2 & IH3)]; [split; [|split]; intros; lia|].
  split; [|split]; intros s Hf.
  - rewrite scan_once_S. destruct s as [|c s1]; [easy|]. cbn [length] in Hf.
    destruct (c =? 34); [now destruct (scanstring s1) as [[? ?]|]|].
    pose proof (suffix_length _ _ (skip_ws_suffix s1)) as Hws.
    destruct (c =? 123).
    { destruct (skip_ws s1) as [|c1 r1]; [easy|]. destruct (c1 =? 125); [easy|].
      apply scan_map_fuel_inv, IH3. lia. }
    destruct (c =? 91).
    { destruct (skip_ws s1) as [|c1 r1]; [easy|]. destruct (c1 =? 93); [easy|].
      apply scan_map_fuel_inv, IH2. lia. }
    unfold scan_atom.
    repeat lazymatch goal with
           | |- context [strip_prefix ?p ?t] => destruct (strip_prefix p t)
           end; try easy.
    now destruct (match_number (c :: s1)) as [[[[] ?] ?]|].
  - rewrite parse_items_S.
    destruct (scan_once fuel s) as [v r| |] eqn:E; [|easy|].
    + destruct (scan_suffix fuel) as [Hs _]. apply Hs in E.
      apply proper_suffix_length in E.
      destruct (skip_ws r) as [|c r1] eqn:Ews; [easy|].
      apply skip_ws_cons, proper_suffix_length in Ews.
      destruct (c =? 93); [easy|]. destruct (c =? 44); [|easy].
      pose proof (suffix_length _ _ (skip_ws_suffix r1)) as Hws.
      apply scan_map_fuel_inv, IH2. lia.
    + exfalso. revert E. apply IH1. lia.
  - rewrite parse_pairs_S. destruct s as [|q s1]; [easy|]. cbn [length] in Hf.
    destruct (q =? 34); [|easy].
    destruct (scanstring s1) as [[key r1]|] eqn:Ek; [|easy].
    apply scanstring_suffix, proper_suffix_length in Ek.
    destruct (skip_ws r1) as [|colon r2] eqn:Ews1; [easy|].
    apply skip_ws_cons, proper_suffix_length in Ews1.
    destruct (colon =? 58); [|easy].
    pose proof (suffix_length _ _ (skip_ws_suffix r2)) as Hws2.
    destruct (scan_once fuel (skip_ws r2)) as [v r3| |] eqn:E; [|easy|].
    + destruct (scan_suffix fuel) as [Hs _]. apply Hs in E.
      apply proper_suffix_length in E.
      destruct (skip_ws r3) as [|c r4] eqn:Ews3; [easy|].
      apply skip_ws_cons, proper_suffix_length in Ews3.
      destruct (c =? 125); [easy|]. destruct (c =? 44); [|easy].
      pose proof (suffix_length _ _ (skip_ws_suffix r4)) as Hws4.
      apply scan_map_fuel_inv, IH3. lia.
    + exfalso. revert E. apply IH1. lia.
Qed.


End Scanner.

(** ** Well-formed values and the round trip of the encoder *)

Section RoundTrip.
Context {F : PyFloat}.

(** A value [json.loads] can return: well-formed strings, distinct keys. *)
Fixpoint value_ok (v : value) : bool :=
  match v with
  | VStr s => text_ok s
  | VList l => forallb value_ok l
  | VDict d =>
      keys_unique (map fst d)
      && forallb (fun kv => text_ok (fst kv) && value_ok (snd kv)) d
  | _ => true
  end.

Definition dict_ok (d : dict) : bool := value_ok (VDict d).

Lemma scan_more_fuel (f f' : nat) :
  (f <= f')%nat ->
  (forall s, scan_once f s <> OutOfFuel -> scan_once f' s = scan_once f s)
  /\ (forall s, parse_items f s <> OutOfFuel ->
                parse_items f' s = parse_items f s)
  /\ (forall s, parse_pairs f s <> OutOfFuel ->
                parse_pairs f' s = parse_pairs f s).
Proof.
  induction 1 as [|f' Hle (IH1 & IH2 & IH3)]; [easy|].
  destruct (scan_mono f') as (M1 & M2 & M3).
  split; [|split]; intros s H.
  - rewrite M1; rewrite IH1; easy.
  - rewrite M2; rewrite IH2; easy.
  - rewrite M3; rewrite IH3; easy.
Qed.

Lemma scan_once_ge (f f' : nat) (s : text) (v : value) (r : text) :
  scan_once f s = Scanned v r -> (f <= f')%nat -> scan_once f' s = Scanned v r.
Proof.
  intros E Hle. destruct (scan_more_fuel f f' Hle) as (H & _ & _).
  rewrite H; [assumption|]. now rewrite E.
Qed.

Lemma parse_items_ge (f f' : nat) (s : text) (vs : list value) (r : text) :
  parse_items f s = Scanned vs r -> (f <= f')%nat ->
  parse_items f' s = Scanned vs r.
Proof.
  intros E Hle. destruct (scan_more_fuel f f' Hle) as (_ & H & _).
  rewrite H; [assumption|]. now rewrite E.
Qed.

Lemma parse_pairs_ge (f f' : nat) (s : text) (ps : list (text * value))
      (r : text) :
  parse_pairs f s = Scanned ps r -> (f <= f')%nat ->
  parse_pairs f' s = Scanned ps r.
Proof.
  intros E Hle. destruct (scan_more_fuel f f' Hle) as (_ & _ & H).
  rewrite H; [assumption|]. now rewrite E.
Qed.

(** *** Whitespace and first characters *)

Lemma skip_ws_spaces (n : nat) (t : text) : skip_ws (repeat 32 n ++ t) = skip_ws t.
Proof. induction n as [|n IH]; [reflexivity|exact IH]. Qed.

Lemma skip_ws_newline_indent (level : nat) (t : text) :
  skip_ws (newline_indent level ++ t) = skip_ws t.
Proof. unfold newline_indent. cbn [app skip_ws is_ws]. apply skip_ws_spaces. Qed.

Lemma skip_ws_head (c : N) (t : text) : is_ws c = false -> skip_ws (c :: t) = c :: t.
Proof. intros H. cbn [skip_ws]. now rewrite H. Qed.

(** The first character of a value: not whitespace, not a closing bracket,
    and what the scanner dispatches on. *)
Definition opens_value (c : N) : Prop :=
  is_ws c = false /\ c <> 93 /\ c <> 125 /\ c < 128.

Lemma strip_prefix_head (p : text) (x c : N) (t : text) :
  x <> c -> strip_prefix (x :: p) (c :: t) = None.
Proof. intros H. cbn [strip_prefix]. apply N.eqb_neq in H. now rewrite H. Qed.

(** A matched number starts with a digit, or with [-] and a digit. *)
Lemma match_number_head (s : text) (b : bool) (m r : text) :
  match_number s = Some (b, m, r) ->
  exists c t, s = c :: t
    /\ (is_digit c = true
        \/ (c = 45 /\ exists d t', t = d :: t' /\ is_digit d = true)).
Proof.
  unfold match_number, match_sign. destruct s as [|c t]; [easy|].
  intros H. exists c, t. split; [reflexivity|].
  destruct (N.eqb_spec c 45) as [->|Hc].
  - right. split; [reflexivity|]. destruct t as [|d t']; [easy|].
    exists d, t'. split; [reflexivity|]. cbn [match_int] in H.
    destruct (N.eqb_spec d 48) as [->|_]; [reflexivity|].
    now destruct (is_digit d).
  - left. cbn [match_int] in H.
    destruct (N.eqb_spec c 48) as [->|_]; [reflexivity|].
    now destruct (is_digit c).
Qed.

Lemma is_digit_range (c : N) : is_digit c = true -> 48 <= c <= 57.
Proof. unfold is_digit. rewrite andb_true_iff, !N.leb_le. tauto. Qed.

Lemma scan_atom_number (s : text) (b : bool) (m r : text) :
  match_number s = Some (b, m, r) ->
  scan_atom s
  = Scanned (if b then VFloat (float_of_literal m) else VInt (int_of_literal m)) r.
Proof.
  intros E. destruct (match_number_head _ _ _ _ E) as (c & t & -> & Hc).
  unfold scan_atom.
  assert (Hne : c <> 110 /\ c <> 116 /\ c <> 102 /\ c <> 78 /\ c <> 73).
  { destruct Hc as [Hc|[-> _]]; [apply is_digit_range in Hc|]; lia. }
  change (lit "null") with [110; 117; 108; 108].
  change (lit "true") with [116; 114; 117; 101].
  change (lit "false") with [102; 97; 108; 115; 101].
  change (lit "NaN") with [78; 97; 78].
  change (lit "Infinity") with [73; 110; 102; 105; 110; 105; 116; 121].
  change (lit "-Infinity") with [45; 73; 110; 102; 105; 110; 105; 116; 121].
  rewrite (strip_prefix_head _ 110), (strip_prefix_head _ 116),
    (strip_prefix_head _ 102), (strip_prefix_head _ 78),
    (strip_prefix_head _ 73) by lia.
  assert (Hinf : strip_prefix [45; 73; 110; 102; 105; 110; 105; 116; 121] (c :: t)
                 = None).
  { destruct Hc as [Hc|(-> & d & t' & -> & Hd)].
    - apply strip_prefix_head. apply is_digit_range in Hc. lia.
    - cbn [strip_prefix]. change (45 =? 45) with true. cbv iota.
      apply is_digit_range in Hd.
      replace (73 =? d) with false by (symmetry; apply N.eqb_neq; lia).
      reflexivity. }
  rewrite Hinf, E. now destruct b.
Qed.

Lemma number_opens_value (s : text) (b : bool) (m r : text) :
  match_number s = Some (b, m, r) ->
  exists c t, s = c :: t /\ opens_value c
              /\ c <> 34 /\ c <> 123 /\ c <> 91.
Proof.
  intros E. destruct (match_number_head _ _ _ _ E) as (c & t & -> & Hc).
  exists c, t. split; [reflexivity|].
  assert (H : 48 <= c <= 57 \/ c = 45).
  { destruct Hc as [Hc|[-> _]]; [left; now apply is_digit_range|now right]. }
  unfold opens_value, is_ws. rewrite !orb_false_iff, !N.eqb_neq. lia.
Qed.

Lemma scan_once_atom (fuel : nat) (c : N) (t : text) :
  c <> 34 -> c <> 123 -> c <> 91 ->
  scan_once (S fuel) (c :: t) = scan_atom (c :: t).
Proof.
  intros H1 H2 H3. rewrite scan_once_S.
  apply N.eqb_neq in H1, H2, H3. now rewrite H1, H2, H3.
Qed.

Lemma scan_once_number (fuel : nat) (l rest : text) (b : bool) :
  match_number l = Some (b, l, []) -> ends_number rest ->
  scan_once (S fuel) (l ++ rest)
  = Scanned (if b then VFloat (float_of_literal l) else VInt (int_of_literal l))
            rest.
Proof.
  intros E Hr. apply match_number_app with (rest := rest) in E; [|assumption].
  cbn [app] in E.
  destruct (number_opens_value _ _ _ _ E) as (c & t & Es & _ & H1 & H2 & H3).
  rewrite Es, scan_once_atom by assumption. rewrite <- Es.
  now apply scan_atom_number.
Qed.

Lemma scan_once_float (fuel : nat) (f : float) (rest : text) :
  ends_number rest ->
  scan_once (S fuel) (floatstr f ++ rest) = Scanned (VFloat f) rest.
Proof.
  intros Hr.
  destruct (floatstr_parses f) as [[-> ->]|[[-> ->]|[[-> ->]|[E1 E2]]]];
    try reflexivity.
  rewrite (scan_once_number fuel _ _ true E1 Hr). now rewrite E2.
Qed.

Lemma scan_once_int (fuel : nat) (z : Z) (rest : text) :
  ends_number rest ->
  scan_once (S fuel) (int_repr z ++ rest) = Scanned (VInt z) rest.
Proof.
  intros Hr.
  rewrite (scan_once_number fuel _ _ false (match_number_int_repr z) Hr).
  now rewrite int_of_literal_repr.
Qed.

Lemma encode_opens (level : nat) (v : value) :
  exists c t, encode level v = c :: t /\ opens_value c.
Proof.
  assert (Hconst : forall c, In c [110; 116; 102; 34; 91; 123; 78; 73; 45] ->
                             opens_value c).
  { intros c Hc. cbn in Hc. unfold opens_value, is_ws.
    rewrite !orb_false_iff, !N.eqb_neq. lia. }
  destruct v as [|[]|z|f|s|[|x l]|[|[k x] d]]; cbn [encode];
    try (eexists _, _; split; [reflexivity|apply Hconst; cbn; tauto]).
  - destruct (number_opens_value _ _ _ _ (match_number_int_repr z))
      as (c & t & E & H & _). eauto.
  - destruct (floatstr_parses f) as [[-> _]|[[-> _]|[[-> _]|[E _]]]];
      try (eexists _, _; split; [reflexivity|apply Hconst; cbn; tauto]).
    destruct (number_opens_value _ _ _ _ E) as (c & t & E' & H & _). eauto.
Qed.

Lemma skip_ws_encode (level : nat) (v : value) (t : text) :
  skip_ws (encode level v ++ t) = encode level v ++ t.
Proof.
  destruct (encode_opens level v) as (c & t' & -> & Hws & _).
  now apply skip_ws_head.
Qed.

End RoundTrip.

Section RoundTripMain.
Context {F : PyFloat}.

(** Scanning the encoding of [v] gives [v] back, whatever follows it, as
    long as what follows does not continue a number. *)
Definition scans (v : value) : Prop :=
  forall level rest, ends_number rest ->
    exists fuel, scan_once fuel (encode level v ++ rest) = Scanned v rest.

Lemma ends_number_newline (level : nat) (t : text) :
  ends_number (newline_indent level ++ t).
Proof. reflexivity. Qed.

Lemma ends_number_comma (t : text) : ends_number (44 :: t).
Proof. reflexivity. Qed.

Lemma skip_ws_close (level : nat) (c : N) (t : text) :
  is_ws c = false -> skip_ws (newline_indent level ++ c :: t) = c :: t.
Proof. intros H. rewrite skip_ws_newline_indent. now apply skip_ws_head. Qed.

(** The items of a non-empty list, from the first one to the bracket. *)
Lemma parse_items_encode (level : nat) (rest : text) (l : list value) :
  forall x, Forall scans (x :: l) ->
    exists fuel,
      parse_items fuel
        (encode (S level) x
         ++ flat_map (fun y => 44 :: newline_indent (S level)
                               ++ encode (S level) y) l
         ++ newline_indent level ++ 93 :: rest)
      = Scanned (x :: l) rest.
Proof.
  induction l as [|y l IH]; intros x H;
    inversion H as [|? ? Hx Hl]; subst; cbn [flat_map app].
  - destruct (Hx (S level) (newline_indent level ++ 93 :: rest)
                 (ends_number_newline _ _)) as [f1 E1].
    exists (S f1). rewrite parse_items_S, E1, skip_ws_close by reflexivity.
    reflexivity.
  - rewrite <- !app_assoc. cbn [app].
    set (tail := encode (S level) y
                 ++ flat_map (fun y0 => 44 :: newline_indent (S level)
                                        ++ encode (S level) y0) l
                 ++ newline_indent level ++ 93 :: rest).
    destruct (Hx (S level) (44 :: newline_indent (S level) ++ tail)
                 (ends_number_comma _)) as [f1 E1].
    destruct (IH y Hl) as [f2 E2]. fold tail in E2.
    exists (S (Nat.max f1 f2)).
    rewrite parse_items_S.
    rewrite (scan_once_ge f1 _ _ _ _ E1) by lia.
    rewrite skip_ws_head by reflexivity.
    change (44 =? 93) with false. change (44 =? 44) with true. cbv iota.
    rewrite skip_ws_newline_indent. unfold tail at 1. rewrite skip_ws_encode.
    fold tail. rewrite (parse_items_ge f2 _ _ _ _ E2) by lia.
    reflexivity.
Qed.

(** The pairs of a non-empty dict, from the first key to the brace. *)
Lemma parse_pairs_encode (level : nat) (rest : text)
      (d : list (text * value)) :
  forall k x,
    Forall (fun kv => text_ok (fst kv) = true /\ scans (snd kv)) ((k, x) :: d) ->
    exists fuel,
      parse_pairs fuel
        (encode_basestring_ascii k ++ lit ": " ++ encode (S level) x
         ++ flat_map (fun kv => 44 :: newline_indent (S level)
                                ++ encode_basestring_ascii (fst kv) ++ lit ": "
                                ++ encode (S level) (snd kv)) d
         ++ newline_indent level ++ 125 :: rest)
      = Scanned ((k, x) :: d) rest.
Proof.
  induction d as [|[k' y] d IH]; intros k x H;
    inversion H as [|? ? [Hk Hx] Hd]; subst; cbn [flat_map app fst snd] in *.
  - destruct (Hx (S level) (newline_indent level ++ 125 :: rest)
                 (ends_number_newline _ _)) as [f1 E1].
    exists (S f1). rewrite parse_pairs_S.
    unfold encode_basestring_ascii. cbn [app].
    change (34 =? 34) with true. cbv iota.
    rewrite <- app_assoc. cbn [app]. rewrite scanstring_escape by assumption.
    change (lit ": ") with [58; 32]. cbn [app].
    rewrite skip_ws_head by reflexivity.
    change (58 =? 58) with true. cbv iota.
    change (skip_ws (32 :: ?t)) with (skip_ws t).
    rewrite skip_ws_encode, E1, skip_ws_close by reflexivity.
    reflexivity.
  - rewrite <- !app_assoc. cbn [app].
    set (tail := encode_basestring_ascii k' ++ lit ": " ++ encode (S level) y
                 ++ flat_map (fun kv => 44 :: newline_indent (S level)
                                ++ encode_basestring_ascii (fst kv) ++ lit ": "
                                ++ encode (S level) (snd kv)) d
                 ++ newline_indent level ++ 125 :: rest).
    destruct (Hx (S level) (44 :: newline_indent (S level) ++ tail)
                 (ends_number_comma _)) as [f1 E1].
    destruct (IH k' y Hd) as [f2 E2]. fold tail in E2.
    exists (S (Nat.max f1 f2)).
    rewrite parse_pairs_S.
    unfold encode_basestring_ascii at 1. cbn [app].
    change (34 =? 34) with true. cbv iota.
    rewrite <- app_assoc. cbn [app]. rewrite scanstring_escape by assumption.
    change (lit ": ") with [58; 32]. cbn [app].
    rewrite skip_ws_head by reflexivity.
    change (58 =? 58) with true. cbv iota.
    change (skip_ws (32 :: ?t)) with (skip_ws t).
    rewrite skip_ws_encode.
    rewrite (scan_once_ge f1 _ _ _ _ E1) by lia.
    rewrite skip_ws_head by reflexivity.
    change (44 =? 125) with false. change (44 =? 44) with true. cbv iota.
    rewrite skip_ws_newline_indent.
    assert (Hws : skip_ws tail = tail) by (now apply skip_ws_head).
    rewrite Hws. rewrite (parse_pairs_ge f2 _ _ _ _ E2) by lia.
    reflexivity.
Qed.

Lemma value_ok_list (l : list value) :
  value_ok (VList l) = true -> Forall (fun v => value_ok v = true) l.
Proof. cbn [value_ok]. now rewrite forallb_forall, Forall_forall. Qed.

Lemma value_ok_dict (d : list (text * value)) :
  value_ok (VDict d) = true ->
  NoDup (dict_keys d)
  /\ Forall (fun kv => text_ok (fst kv) = true /\ value_ok (snd kv) = true) d.
Proof.
  cbn [value_ok]. rewrite andb_true_iff, keys_unique_NoDup.
  rewrite forallb_forall, Forall_forall. intros [Hk Hd]. split; [assumption|].
  intros kv Hin. apply andb_true_iff. now apply Hd.
Qed.

Lemma scan_encode (v : value) : value_ok v = true -> scans v.
Proof.
  induction v as [|b|z|f|s|l IH|d IH] using value_induction;
    intros Hok level rest Hr.
  - now exists 1%nat.
  - exists 1%nat. now destruct b.
  - exists 1%nat. now apply scan_once_int.
  - exists 1%nat. now apply scan_once_float.
  - exists 1%nat. cbn [encode]. rewrite scan_once_S.
    unfold encode_basestring_ascii. cbn [app].
    change (34 =? 34) with true. cbv iota.
    rewrite <- app_assoc. cbn [app]. now rewrite scanstring_escape.
  - destruct l as [|x l]; [now exists 1%nat|].
    apply value_ok_list in Hok.
    assert (Hall : Forall scans (x :: l)).
    { rewrite Forall_forall in *. intros y Hy. apply IH; [|apply Hok]; easy. }
    destruct (parse_items_encode level rest l x Hall) as [f E].
    exists (S f). cbn [encode]. rewrite scan_once_S. cbn [app].
    change (91 =? 34) with false. change (91 =? 123) with false.
    change (91 =? 91) with true. cbv iota.
    rewrite <- !app_assoc, skip_ws_newline_indent, skip_ws_encode.
    destruct (encode_opens (S level) x) as (c & t & Ec & _ & Hc & _).
    rewrite Ec in *. cbn [app] in *.
    replace (c =? 93) with false by (symmetry; now apply N.eqb_neq).
    cbn [app] in E. now rewrite E.
  - destruct d as [|[k x] d]; [now exists 1%nat|].
    apply value_ok_dict in Hok as [Hnd Hok].
    assert (Hall : Forall (fun kv => text_ok (fst kv) = true /\ scans (snd kv))
                          ((k, x) :: d)).
    { rewrite Forall_forall in *. intros kv Hkv.
      destruct (Hok kv Hkv) as [H1 H2]. split; [assumption|].
      now apply IH. }
    destruct (parse_pairs_encode level rest d k x Hall) as [f E].
    exists (S f). cbn [encode]. rewrite scan_once_S. cbn [app].
    change (123 =? 34) with false. change (123 =? 123) with true. cbv iota.
    rewrite <- !app_assoc, skip_ws_newline_indent.
    unfold encode_basestring_ascii at 1. cbn [app].
    rewrite skip_ws_head by reflexivity.
    change (34 =? 125) with false. cbv iota.
    unfold encode_basestring_ascii at 1 in E. cbn [app] in E.
    rewrite <- !app_assoc in E. cbn [app] in E. rewrite <- !app_assoc.
    cbn [app]. rewrite E. cbn [scan_map].
    unfold dict_of_pairs. now rewrite dict_update_empty.
Qed.

(** [json.loads(json.dumps(v, indent=2)) == v] *)
Lemma json_loads_dumps (v : value) :
  value_ok v = true -> json_loads (json_dumps v) = Return v.
Proof.
  intros Hok. unfold json_loads, json_dumps, decode.
  destruct (encode_opens 0 v) as (c & t & Ec & Hws & Hc).
  assert (Hbom : starts_with_bom (encode 0 v) = false).
  { rewrite Ec. cbn [starts_with_bom]. apply N.eqb_neq.
    destruct Hc as (_ & _ & Hc). lia. }
  rewrite Hbom.
  replace (skip_ws (encode 0 v)) with (encode 0 v)
    by (rewrite Ec; symmetry; now apply skip_ws_head).
  destruct (scan_encode v Hok 0%nat [] I) as [f E]. rewrite app_nil_r in E.
  assert (Hfuel : scan_once (scan_fuel (encode 0 v)) (encode 0 v) <> OutOfFuel).
  { destruct (scan_total (scan_fuel (encode 0 v))) as [Ht _]. apply Ht.
    unfold scan_fuel. lia. }
  assert (E' : scan_once (scan_fuel (encode 0 v)) (encode 0 v) = Scanned v []).
  { destruct (Nat.le_ge_cases f (scan_fuel (encode 0 v))) as [Hle|Hle].
    - now apply scan_once_ge with f.
    - rewrite <- E. symmetry.
      destruct (scan_more_fuel _ _ Hle) as (H & _ & _). now apply H. }
  now rewrite E'.
Qed.

End RoundTripMain.

(** ** What the scanner returns is well formed *)

Section ScannerOutput.
Context {F : PyFloat}.

Definition entry_ok (kv : text * value) : Prop :=
  text_ok (fst kv) = true /\ value_ok (snd kv) = true.

Lemma value_ok_dict_intro (d : list (text * value)) :
  NoDup (dict_keys d) -> Forall entry_ok d -> value_ok (VDict d) = true.
Proof.
  intros Hnd Hd. cbn [value_ok]. apply andb_true_iff. split.
  - now apply keys_unique_NoDup.
  - apply forallb_forall. rewrite Forall_forall in Hd. intros kv Hin.
    destruct (Hd kv Hin). now apply andb_true_iff.
Qed.

Lemma value_ok_list_intro (l : list value) :
  Forall (fun v => value_ok v = true) l -> value_ok (VList l) = true.
Proof. cbn [value_ok]. now rewrite forallb_forall, Forall_forall. Qed.

Lemma dict_of_pairs_ok (ps : list (text * value)) :
  Forall entry_ok ps -> value_ok (VDict (dict_of_pairs ps)) = true.
Proof.
  intros H. apply value_ok_dict_intro; unfold dict_of_pairs.
  - apply dict_update_NoDup. constructor.
  - apply dict_update_Forall; [assumption|constructor].
Qed.

Lemma scan_atom_ok (s : text) (v : value) (r : text) :
  scan_atom s = Scanned v r -> value_ok v = true.
Proof.
  unfold scan_atom.
  repeat lazymatch goal with
         | |- context [strip_prefix ?p s] =>
             destruct (strip_prefix p s); [now intros [= <- _]|]
         end.
  destruct (match_number s) as [[[[] m] r']|]; [| |easy]; now intros [= <- _].
Qed.

Lemma scan_ok (fuel : nat) :
  (forall s v r, Forall scalar s -> scan_once fuel s = Scanned v r ->
                 value_ok v = true)
  /\ (forall s vs r, Forall scalar s -> parse_items fuel s = Scanned vs r ->
                     Forall (fun v => value_ok v = true) vs)
  /\ (forall s ps r, Forall scalar s -> parse_pairs fuel s = Scanned ps r ->
                     Forall entry_ok ps).
Proof.
  induction fuel as [|fuel (IH1 & IH2 & IH3)]; [easy|].
  destruct (scan_suffix fuel) as (S1 & _ & _).
  split; [|split]; intros s.
  - intros v r Hs. rewrite scan_once_S. destruct s as [|c s1]; [easy|].
    assert (Hs1 : Forall scalar s1) by now inversion Hs.
    destruct (c =? 34).
    { destruct (scanstring s1) as [[str rest]|] eqn:E; [|easy].
      intros [= <- _]. cbn [value_ok]. eapply scanstring_ok; eassumption. }
    assert (Hws : Forall scalar (skip_ws s1))
      by (eapply suffix_Forall; [apply skip_ws_suffix|assumption]).
    destruct (c =? 123).
    { destruct (skip_ws s1) as [|c1 r1]; [easy|].
      destruct (c1 =? 125); [now intros [= <- _]|].
      intros H. apply scan_map_Scanned in H as (ps & H & ->).
      apply dict_of_pairs_ok. eapply IH3; eassumption. }
    destruct (c =? 91).
    { destruct (skip_ws s1) as [|c1 r1]; [easy|].
      destruct (c1 =? 93); [now intros [= <- _]|].
      intros H. apply scan_map_Scanned in H as (vs & H & ->).
      apply value_ok_list_intro. eapply IH2; eassumption. }
    apply scan_atom_ok.
  - intros vs r Hs. rewrite parse_items_S.
    destruct (scan_once fuel s) as [v r0| |] eqn:E; try easy.
    assert (Hv : value_ok v = true) by (eapply IH1; eassumption).
    apply S1 in E.
    assert (Hr0 : Forall scalar r0) by (eapply proper_suffix_Forall; eassumption).
    destruct (skip_ws r0) as [|c r1] eqn:Ews; [easy|].
    apply skip_ws_cons in Ews.
    assert (Hr1 : Forall scalar r1) by (eapply proper_suffix_Forall; eassumption).
    destruct (c =? 93); [intros [= <- _]; now constructor|].
    destruct (c =? 44); [|easy].
    intros H. apply scan_map_Scanned in H as (vs' & H & ->).
    constructor; [assumption|]. eapply IH2; [|exact H].
    eapply suffix_Forall; [apply skip_ws_suffix|assumption].
  - intros ps r Hs. rewrite parse_pairs_S. destruct s as [|q s1]; [easy|].
    assert (Hs1 : Forall scalar s1) by now inversion Hs.
    destruct (q =? 34); [|easy].
    destruct (scanstring s1) as [[key r1]|] eqn:Ek; [|easy].
    assert (Hkey : text_ok key = true) by (eapply scanstring_ok; eassumption).
    apply scanstring_suffix in Ek.
    assert (Hr1 : Forall scalar r1) by (eapply proper_suffix_Forall; eassumption).
    destruct (skip_ws r1) as [|colon r2] eqn:Ews1; [easy|].
    apply skip_ws_cons in Ews1.
    assert (Hr2 : Forall scalar r2) by (eapply proper_suffix_Forall; eassumption).
    destruct (colon =? 58); [|easy].
    assert (Hr2' : Forall scalar (skip_ws r2))
      by (eapply suffix_Forall; [apply skip_ws_suffix|assumption]).
    destruct (scan_once fuel (skip_ws r2)) as [v r3| |] eqn:E; try easy.
    assert (Hv : value_ok v = true) by (eapply IH1; eassumption).
    apply S1 in E.
    assert (Hr3 : Forall scalar r3) by (eapply proper_suffix_Forall; eassumption).
    destruct (skip_ws r3) as [|c r4] eqn:Ews3; [easy|].
    apply skip_ws_cons in Ews3.
    assert (Hr4 : Forall scalar r4) by (eapply proper_suffix_Forall; eassumption).
    destruct (c =? 125); [intros [= <- _]; now repeat constructor|].
    destruct (c =? 44); [|easy].
    intros H. apply scan_map_Scanned in H as (ps' & H & ->).
    constructor; [now split|]. eapply IH3; [|exact H].
    eapply suffix_Forall; [apply skip_ws_suffix|assumption].
Qed.

(** Every value [json.loads] returns for a text of scalar values is well
    formed. *)
Lemma json_loads_ok (s : text) (v : value) :
  Forall scalar s -> json_loads s = Return v -> value_ok v = true.
Proof.
  intros Hs. unfold json_loads, decode.
  destruct (starts_with_bom s); [easy|].
  destruct (scan_once (scan_fuel s) (skip_ws s)) as [v' rest| |] eqn:E;
    [|easy|easy].
  destruct (skip_ws rest); [|easy]. intros [= <-].
  destruct (scan_ok (scan_fuel s)) as (H & _ & _). eapply H; [|exact E].
  eapply suffix_Forall; [apply skip_ws_suffix|assumption].
Qed.

End ScannerOutput.

(** ** Text files: UTF-8 and newline translation *)

Definition byte : Type := ascii.

Definition is_cont (b : N) : bool := (0x80 <=? b) && (b <=? 0xBF).

(** [bytes.decode('utf-8')], strict: overlong forms, surrogates and values
    above [0x10FFFF] are refused ([None] stands for [UnicodeDecodeError]). *)
Fixpoint utf8_decode_units (bs : list N) : option text :=
  match bs with
  | [] => Some []
  | b0 :: r =>
      if b0 <? 0x80 then option_map (cons b0) (utf8_decode_units r)
      else if b0 <? 0xC2 then None
      else if b0 <? 0xE0 then
        match r with
        | b1 :: r1 =>
            if is_cont b1
            then option_map (cons ((b0 - 0xC0) * 64 + (b1 - 0x80)))
                            (utf8_decode_units r1)
            else None
        | _ => None
        end
      else if b0 <? 0xF0 then
        match r with
        | b1 :: b2 :: r2 =>
            let c := (b0 - 0xE0) * 4096 + (b1 - 0x80) * 64 + (b2 - 0x80) in
            if is_cont b1 && is_cont b2 && (0x800 <=? c) && negb (is_surrogate c)
            then option_map (cons c) (utf8_decode_units r2)
            else None
        | _ => None
        end
      else if b0 <? 0xF5 then
        match r with
        | b1 :: b2 :: b3 :: r3 =>
            let c := (b0 - 0xF0) * 262144 + (b1 - 0x80) * 4096
                     + (b2 - 0x80) * 64 + (b3 - 0x80) in
            if is_cont b1 && is_cont b2 && is_cont b3
               && (0x10000 <=? c) && (c <? 0x110000)
            then option_map (cons c) (utf8_decode_units r3)
            else None
        | _ => None
        end
      else None
  end.

Definition utf8_decode (bs : list byte) : option text :=
  utf8_decode_units (map N_of_ascii bs).

(** [str.encode('utf-8')], strict: a surrogate is refused. *)
Definition utf8_encode_char (c : N) : option (list N) :=
  if c <? 0x80 then Some [c]
  else if c <? 0x800 then Some [0xC0 + c / 64; 0x80 + c mod 64]
  else if c <? 0x10000 then
    if is_surrogate c then None
    else Some [0xE0 + c / 4096; 0x80 + (c / 64) mod 64; 0x80 + c mod 64]
  else if c <? 0x110000 then
    Some [0xF0 + c / 262144; 0x80 + (c / 4096) mod 64;
          0x80 + (c / 64) mod 64; 0x80 + c mod 64]
  else None.

Fixpoint utf8_encode_units (s : text) : option (list N) :=
  match s with
  | [] => Some []
  | c :: r =>
      match utf8_encode_char c, utf8_encode_units r with
      | Some bs, Some rest => Some (bs ++ rest)
      | _, _ => None
      end
  end.

Definition utf8_encode (s : text) : option (list byte) :=
  option_map (map ascii_of_N) (utf8_encode_units s).

(** Reading in text mode with [newline=None]: ["\r\n"] and ["\r"] become
    ["\n"]. *)
Fixpoint universal_newlines (s : text) : text :=
  match s with
  | [] => []
  | c :: r =>
      if c =? 13 then
        10 :: match r with
              | d :: r' =>
                  if d =? 10 then universal_newlines r' else universal_newlines r
              | [] => []
              end
      else c :: universal_newlines r
  end.

Example utf8_decode_euro :
  utf8_decode_units [0xE2; 0x82; 0xAC; 0x41; 0xF0; 0x9F; 0x98; 0x80]
  = Some [0x20AC; 0x41; 0x1F600].
Proof. reflexivity. Qed.

Example utf8_decode_surrogate : utf8_decode_units [0xED; 0xA0; 0x80] = None.
Proof. reflexivity. Qed.

Example utf8_decode_overlong : utf8_decode_units [0xC0; 0x80] = None.
Proof. reflexivity. Qed.

Example utf8_encode_euro :
  utf8_encode_units [0x20AC; 0x41; 0x1F600]
  = Some [0xE2; 0x82; 0xAC; 0x41; 0xF0; 0x9F; 0x98; 0x80].
Proof. reflexivity. Qed.

Lemma scalar_cons (c : N) (t : text) :
  c < 0x110000 -> is_surrogate c = false -> Forall scalar t ->
  Forall scalar (c :: t).
Proof. intros. constructor; [split|]; assumption. Qed.

Lemma not_surrogate_below (c : N) : c < 0xD800 -> is_surrogate c = false.
Proof.
  intros H. unfold is_surrogate. apply andb_false_iff. left.
  now apply N.leb_gt.
Qed.

Lemma not_surrogate_from (c : N) : 0xE000 <= c -> is_surrogate c = false.
Proof.
  intros H. unfold is_surrogate. apply andb_false_iff. right.
  apply N.leb_gt. lia.
Qed.

Lemma is_cont_range (b : N) : is_cont b = true -> 0x80 <= b <= 0xBF.
Proof. unfold is_cont. rewrite andb_true_iff, !N.leb_le. tauto. Qed.

(** A decoded file holds Unicode scalar values only. *)
Lemma utf8_decode_units_scalar (n : nat) :
  forall bs t, (length bs <= n)%nat ->
    utf8_decode_units bs = Some t -> Forall scalar t.
Proof.
  induction n as [|n IH]; intros bs t Hlen.
  { destruct bs; [|cbn in Hlen; lia]. intros [= <-]. constructor. }
  destruct bs as [|b0 r]; [intros [= <-]; constructor|].
  cbn [length] in Hlen. cbn [utf8_decode_units].
  destruct (N.ltb_spec b0 0x80) as [H0|H0].
  { destruct (utf8_decode_units r) as [t'|] eqn:E; [|easy]. intros [= <-].
    apply scalar_cons; [lia|apply not_surrogate_below; lia|].
    apply (IH r); [lia|assumption]. }
  destruct (N.ltb_spec b0 0xC2) as [H1|H1]; [easy|].
  destruct (N.ltb_spec b0 0xE0) as [H2|H2].
  { destruct r as [|b1 r1]; [easy|]. cbn [length] in Hlen.
    destruct (is_cont b1) eqn:C1; [|easy]. apply is_cont_range in C1.
    destruct (utf8_decode_units r1) as [t'|] eqn:E; [|easy]. intros [= <-].
    apply scalar_cons; [lia|apply not_surrogate_below; lia|].
    apply (IH r1); [lia|assumption]. }
  destruct (N.ltb_spec b0 0xF0) as [H3|H3].
  { destruct r as [|b1 [|b2 r2]]; try easy. cbn [length] in Hlen.
    cbv zeta.
    destruct (is_cont b1) eqn:C1; [|easy].
    destruct (is_cont b2) eqn:C2; [|easy]. cbn [andb].
    apply is_cont_range in C1, C2.
    destruct (N.leb_spec 0x800 ((b0 - 0xE0) * 4096 + (b1 - 0x80) * 64 + (b2 - 0x80)));
      [|easy]. cbn [andb].
    destruct (is_surrogate ((b0 - 0xE0) * 4096 + (b1 - 0x80) * 64 + (b2 - 0x80)))
      eqn:Es; [easy|]. cbn [negb].
    destruct (utf8_decode_units r2) as [t'|] eqn:E; [|easy]. intros [= <-].
    apply scalar_cons; [lia|assumption|].
    apply (IH r2); [lia|assumption]. }
  destruct (N.ltb_spec b0 0xF5) as [H4|H4]; [|easy].
  destruct r as [|b1 [|b2 [|b3 r3]]]; try easy. cbn [length] in Hlen.
  cbv zeta.
  destruct (is_cont b1 && is_cont b2 && is_cont b3); [|easy]. cbn [andb].
  destruct (N.leb_spec 0x10000 ((b0 - 0xF0) * 262144 + (b1 - 0x80) * 4096
                                + (b2 - 0x80) * 64 + (b3 - 0x80))); [|easy].
  cbn [andb].
  destruct (N.ltb_spec ((b0 - 0xF0) * 262144 + (b1 - 0x80) * 4096
                        + (b2 - 0x80) * 64 + (b3 - 0x80)) 0x110000); [|easy].
  destruct (utf8_decode_units r3) as [t'|] eqn:E; [|easy]. intros [= <-].
  apply scalar_cons; [assumption|apply not_surrogate_from; lia|].
  apply (IH r3); [lia|assumption].
Qed.

Lemma utf8_decode_scalar (bs : list byte) (t : text) :
  utf8_decode bs = Some t -> Forall scalar t.
Proof. apply (utf8_decode_units_scalar (length (map N_of_ascii bs))). lia. Qed.

Lemma universal_newlines_scalar (n : nat) :
  forall s, (length s <= n)%nat -> Forall scalar s ->
            Forall scalar (universal_newlines s).
Proof.
  assert (H10 : scalar 10) by (split; [reflexivity|reflexivity]).
  induction n as [|n IH]; intros s Hlen Hs.
  { destruct s; [constructor|cbn in Hlen; lia]. }
  destruct s as [|c r]; [constructor|]. cbn [length] in Hlen.
  inversion Hs as [|? ? Hc Hr]; subst. cbn [universal_newlines].
  destruct (c =? 13).
  - constructor; [assumption|]. destruct r as [|d r']; [constructor|].
    cbn [length] in Hlen. destruct (d =? 10); apply IH; try (cbn; lia);
      [now inversion Hr|assumption].
  - constructor; [assumption|]. apply IH; [lia|assumption].
Qed.

(** *** ASCII text *)

(** Printable ASCII or a line feed: what the encoder writes. *)
Definition json_char (c : N) : bool :=
  ((32 <=? c) && (c <=? 126)) || (c =? 10).

Lemma json_char_range (c : N) : json_char c = true <-> 32 <= c <= 126 \/ c = 10.
Proof.
  unfold json_char. rewrite orb_true_iff, andb_true_iff, !N.leb_le, N.eqb_eq.
  tauto.
Qed.

Lemma utf8_encode_units_ascii (s : text) :
  Forall (fun c => json_char c = true) s -> utf8_encode_units s = Some s.
Proof.
  induction 1 as [|c s Hc _ IH]; [reflexivity|]. cbn [utf8_encode_units].
  rewrite IH. unfold utf8_encode_char. apply json_char_range in Hc.
  replace (c <? 0x80) with true by (symmetry; apply N.ltb_lt; lia).
  reflexivity.
Qed.

Lemma utf8_decode_units_ascii (s : text) :
  Forall (fun c => json_char c = true) s -> utf8_decode_units s = Some s.
Proof.
  induction 1 as [|c s Hc _ IH]; [reflexivity|]. cbn [utf8_decode_units].
  rewrite IH. apply json_char_range in Hc.
  replace (c <? 0x80) with true by (symmetry; apply N.ltb_lt; lia).
  reflexivity.
Qed.

Lemma universal_newlines_ascii (s : text) :
  Forall (fun c => json_char c = true) s -> universal_newlines s = s.
Proof.
  induction 1 as [|c s Hc _ IH]; [reflexivity|]. cbn [universal_newlines].
  rewrite IH. apply json_char_range in Hc.
  replace (c =? 13) with false by (symmetry; apply N.eqb_neq; lia).
  reflexivity.
Qed.

Lemma map_N_of_ascii_of_N (s : text) :
  Forall (fun c => json_char c = true) s ->
  map N_of_ascii (map ascii_of_N s) = s.
Proof.
  induction 1 as [|c s Hc _ IH]; [reflexivity|]. cbn [map]. rewrite IH.
  apply json_char_range in Hc. rewrite N_ascii_embedding by lia. reflexivity.
Qed.

(** Writing ASCII text and reading the file back gives the text. *)
Lemma utf8_ascii_round_trip (s : text) :
  Forall (fun c => json_char c = true) s ->
  exists bs, utf8_encode s = Some bs
             /\ option_map universal_newlines (utf8_decode bs) = Some s.
Proof.
  intros H. exists (map ascii_of_N s). unfold utf8_encode, utf8_decode.
  rewrite utf8_encode_units_ascii by assumption. split; [reflexivity|].
  rewrite map_N_of_ascii_of_N, utf8_decode_units_ascii by assumption.
  cbn [option_map]. now rewrite universal_newlines_ascii.
Qed.

(** *** The encoder writes printable ASCII and line feeds *)

Definition all_json_chars (s : text) : Prop :=
  Forall (fun c => json_char c = true) s.

Lemma number_char_json_char (c : N) : number_char c = true -> json_char c = true.
Proof.
  unfold number_char, is_digit. intros H. apply json_char_range.
  rewrite !orb_true_iff, andb_true_iff, !N.leb_le, !N.eqb_eq in H. lia.
Qed.

Lemma span_digits_chars (s : text) :
  Forall (fun c => number_char c = true) (fst (span_digits s)).
Proof.
  induction s as [|c s IH]; cbn [span_digits]; [constructor|].
  destruct (is_digit c) eqn:E; [|constructor].
  destruct (span_digits s). cbn [fst] in *. constructor; [|assumption].
  unfold number_char. now rewrite E.
Qed.

Lemma match_number_chars (s : text) (b : bool) (m r : text) :
  match_number s = Some (b, m, r) ->
  Forall (fun c => number_char c = true) m.
Proof.
  unfold match_number.
  assert (Hsign : Forall (fun c => number_char c = true) (fst (match_sign s))).
  { destruct s as [|c s]; [constructor|]. cbn.
    destruct (N.eqb_spec c 45) as [->|]; repeat constructor. }
  destruct (match_sign s) as [sg s1]. cbn [fst] in Hsign.
  destruct (match_int s1) as [[ip s2]|] eqn:Ei; [|easy].
  assert (Hint : Forall (fun c => number_char c = true) ip).
  { destruct s1 as [|c s1]; [easy|]. cbn in Ei.
    destruct (N.eqb_spec c 48) as [->|].
    - injection Ei as <- <-. repeat constructor.
    - destruct (is_digit c) eqn:Ed; [|easy].
      pose proof (span_digits_chars s1) as Hs. destruct (span_digits s1).
      injection Ei as <- <-. constructor; [|assumption].
      unfold number_char. now rewrite Ed. }
  assert (Hfrac : Forall (fun c => number_char c = true) (fst (match_frac s2))).
  { destruct s2 as [|dot [|d s2]]; try constructor. cbn [match_frac].
    destruct (N.eqb_spec dot 46) as [->|]; [|constructor]. cbn [andb].
    destruct (is_digit d) eqn:Ed; [|constructor].
    pose proof (span_digits_chars s2) as Hs. destruct (span_digits s2).
    cbn [fst] in *. constructor; [reflexivity|]. constructor; [|assumption].
    unfold number_char. now rewrite Ed. }
  destruct (match_frac s2) as [fr s3]. cbn [fst] in Hfrac.
  assert (Hexp : Forall (fun c => number_char c = true) (fst (match_exp s3))).
  { destruct s3 as [|e s3]; [constructor|]. cbn [match_exp].
    destruct ((e =? 101) || (e =? 69)) eqn:Ee; [|constructor].
    assert (Hsg : Forall (fun c => number_char c = true)
                         (fst (match_exp_sign s3))).
    { destruct s3 as [|c s3]; [constructor|]. cbn [match_exp_sign].
      destruct ((c =? 43) || (c =? 45)) eqn:Ec; [|constructor].
      constructor; [|constructor]. unfold number_char.
      apply orb_true_iff in Ec as [->| ->]; now rewrite ?orb_true_r. }
    destruct (match_exp_sign s3) as [sg' r1]. cbn [fst] in Hsg.
    pose proof (span_digits_chars r1) as Hs. destruct (span_digits r1) as [ds r2].
    cbn [fst] in Hs. destruct ds; [constructor|]. cbn [fst].
    constructor.
    - unfold number_char. apply orb_true_iff in Ee as [->| ->];
        now rewrite ?orb_true_r.
    - apply Forall_app. now split. }
  destruct (match_exp s3) as [ex s4]. cbn [fst] in Hexp.
  intros [= _ <- _]. repeat (apply Forall_app; split); assumption.
Qed.

Lemma all_json_chars_lit (s : string) :
  forallb json_char (lit s) = true -> all_json_chars (lit s).
Proof. intros H. apply Forall_forall. now apply forallb_forall. Qed.

Lemma all_json_chars_number (s : text) (b : bool) (r : text) :
  match_number s = Some (b, s, r) -> all_json_chars s.
Proof.
  intros E. apply match_number_chars in E.
  eapply Forall_impl; [|exact E]. apply number_char_json_char.
Qed.

Lemma hex_digit_json_char (n : N) : json_char (hex_digit (n mod 16)) = true.
Proof.
  pose proof (N.mod_upper_bound n 16 ltac:(lia)) as H.
  set (m := n mod 16) in *. clearbody m.
  apply json_char_range. unfold hex_digit. destruct (N.ltb_spec m 10); lia.
Qed.

Lemma u_escape_json_chars (c : N) : all_json_chars (u_escape c).
Proof.
  unfold u_escape. repeat constructor; apply hex_digit_json_char.
Qed.

Lemma escape_char_json_chars (c : N) : all_json_chars (escape_char c).
Proof.
  unfold escape_char.
  repeat match goal with
         | |- context [if ?x =? ?k then _ else _] =>
             destruct (x =? k); [repeat constructor|]
         end.
  destruct ((32 <=? c) && (c <=? 126)) eqn:E.
  { constructor; [|constructor]. unfold json_char. now rewrite E. }
  destruct (c <? 0x10000); [apply u_escape_json_chars|].
  apply Forall_app. split; apply u_escape_json_chars.
Qed.

Lemma encode_basestring_json_chars (s : text) :
  all_json_chars (encode_basestring_ascii s).
Proof.
  unfold encode_basestring_ascii. constructor; [reflexivity|].
  apply Forall_app. split; [|repeat constructor].
  induction s as [|c s IH]; [constructor|]. cbn [flat_map].
  apply Forall_app. split; [apply escape_char_json_chars|assumption].
Qed.

Lemma newline_indent_json_chars (level : nat) :
  all_json_chars (newline_indent level).
Proof.
  unfold newline_indent. constructor; [reflexivity|].
  induction (2 * level)%nat; cbn [repeat]; constructor; easy.
Qed.

Section EncoderOutput.
Context {F : PyFloat}.

Lemma floatstr_json_chars (f : float) : all_json_chars (floatstr f).
Proof.
  destruct (floatstr_parses f) as [[-> _]|[[-> _]|[[-> _]|[E _]]]];
    try (now apply all_json_chars_lit).
  eapply all_json_chars_number, E.
Qed.

Lemma encode_json_chars (v : value) :
  forall level, all_json_chars (encode level v).
Proof.
  induction v as [|b|z|f|s|l IH|d IH] using value_induction; intros level.
  - now apply all_json_chars_lit.
  - destruct b; now apply all_json_chars_lit.
  - eapply all_json_chars_number, match_number_int_repr.
  - apply floatstr_json_chars.
  - apply encode_basestring_json_chars.
  - destruct l as [|x l]; [now apply all_json_chars_lit|]. cbn [encode].
    inversion IH as [|? ? Hx Hl]; subst.
    constructor; [reflexivity|]. unfold all_json_chars.
    rewrite !Forall_app. repeat split.
    + apply newline_indent_json_chars.
    + apply Hx.
    + clear Hx IH. induction Hl as [|y l Hy _ IHl]; [constructor|].
      cbn [flat_map]. constructor; [reflexivity|]. rewrite !Forall_app.
      repeat split; [apply newline_indent_json_chars|apply Hy|assumption].
    + apply newline_indent_json_chars.
    + repeat constructor.
  - destruct d as [|[k x] d]; [now apply all_json_chars_lit|]. cbn [encode].
    inversion IH as [|? ? Hx Hd]; subst. cbn [snd] in Hx.
    constructor; [reflexivity|]. unfold all_json_chars.
    rewrite !Forall_app. repeat split.
    + apply newline_indent_json_chars.
    + apply encode_basestring_json_chars.
    + now apply all_json_chars_lit.
    + apply Hx.
    + clear Hx IH. induction Hd as [|[k' y] d Hy _ IHd]; [constructor|].
      cbn [flat_map fst snd] in *. constructor; [reflexivity|].
      rewrite !Forall_app.
      repeat split; [apply newline_indent_json_chars
                    |apply encode_basestring_json_chars
                    |now apply all_json_chars_lit|apply Hy|assumption].
    + apply newline_indent_json_chars.
    + repeat constructor.
Qed.

End EncoderOutput.

(** ** The environment of the script

    The script touches one directory ([config_dir]), one file in it
    ([config_file]) and standard output. A [world] holds them together with
    the faults the operating system will answer with: each fault is the
    [errno] of the [OSError] the operation raises. The model is a Linux
    host: a line feed is written as it is. *)

Record world : Type := mkWorld {
  home : string;                      (* [Path.home()] *)
  dir_exists : bool;                  (* [config_dir] exists *)
  file : option (list byte);          (* content of [config_file], if any *)
  stdout : list string;               (* lines printed so far *)
  mkdir_fault : option nat;           (* [mkdir] fails *)
  read_fault : option nat;            (* opening or reading the file fails *)
  open_write_fault : option nat;      (* opening the file for writing fails *)
  write_fault : option (nat * nat)    (* writing fails after so many bytes *)
}.

Definition set_dir_exists (b : bool) (w : world) : world :=
  mkWorld (home w) b (file w) (stdout w)
          (mkdir_fault w) (read_fault w) (open_write_fault w) (write_fault w).

Definition set_file (f : option (list byte)) (w : world) : world :=
  mkWorld (home w) (dir_exists w) f (stdout w)
          (mkdir_fault w) (read_fault w) (open_write_fault w) (write_fault w).

Definition add_stdout (line : string) (w : world) : world :=
  mkWorld (home w) (dir_exists w) (file w) (stdout w ++ [line])
          (mkdir_fault w) (read_fault w) (open_write_fault w) (write_fault w).

(** No operation of the file system fails. *)
Definition healthy (w : world) : Prop :=
  mkdir_fault w = None /\ read_fault w = None
  /\ open_write_fault w = None /\ write_fault w = None.

(** *** Computations: state and exceptions *)

Definition M (A : Type) : Type := world -> outcome A * world.

Definition ret {A} (a : A) : M A := fun w => (Return a, w).

Definition raise {A} (e : exn) : M A := fun w => (Raise e, w).

Definition bind {A B} (m : M A) (k : A -> M B) : M B :=
  fun w =>
    match m w with
    | (Return a, w') => k a w'
    | (Raise e, w') => (Raise e, w')
    end.

Definition lift {A} (o : outcome A) : M A := fun w => (o, w).

Notation "x <- m ;; k" := (bind m (fun x => k))
  (at level 61, m at next level, right associativity).
Notation "m ;;; k" := (bind m (fun _ => k))
  (at level 61, right associativity).

(** [try: body except <class>: handler] *)
Definition try_except {A} (body : M A) (catches : exn -> bool) (handler : M A)
  : M A :=
  fun w =>
    match body w with
    | (Raise e, w') => if catches e then handler w' else (Raise e, w')
    | r => r
    end.

Definition is_JSONDecodeError (e : exn) : bool :=
  match e with JSONDecodeError => true | _ => false end.

Definition ENOENT : nat := 2.

(** *** Operations on the environment *)

Definition path_home : M string := fun w => (Return (home w), w).

(** [config_dir.mkdir(parents=True, exist_ok=True)] *)
Definition mkdir_parents : M unit :=
  fun w =>
    match mkdir_fault w with
    | Some errno => (Raise (OSError errno), w)
    | None => (Return tt, set_dir_exists true w)
    end.

(** [config_file.exists()] *)
Definition path_exists : M bool :=
  fun w => (Return (match file w with Some _ => true | None => false end), w).

(** [print(line)] *)
Definition print (line : string) : M unit :=
  fun w => (Return tt, add_stdout line w).

(** [open(config_file, 'r', encoding='utf-8')] and [f.read()] *)
Definition read_text : M text :=
  fun w =>
    match read_fault w with
    | Some errno => (Raise (OSError errno), w)
    | None =>
        match file w with
        | None => (Raise (OSError ENOENT), w)
        | Some bs =>
            match utf8_decode bs with
            | Some t => (Return (universal_newlines t), w)
            | None => (Raise UnicodeDecodeError, w)
            end
        end
    end.

(** [open(config_file, 'w', encoding='utf-8')], [f.write(s)] and the
    close: opening truncates the file; a failing write leaves a prefix of
    the bytes. *)
Definition write_text (s : text) : M unit :=
  fun w =>
    match open_write_fault w with
    | Some errno => (Raise (OSError errno), w)
    | None =>
        if dir_exists w then
          match utf8_encode s with
          | None => (Raise UnicodeEncodeError, set_file (Some []) w)
          | Some bs =>
              match write_fault w with
              | Some (errno, n) =>
                  (Raise (OSError errno), set_file (Some (firstn n bs)) w)
              | None => (Return tt, set_file (Some bs) w)
              end
          end
        else (Raise (OSError ENOENT), w)
    end.

Section Script.
Context {F : PyFloat}.

(** What a file's bytes mean to [json.load]. *)
Definition parse_file (bs : list byte) : outcome value :=
  match utf8_decode bs with
  | Some t => json_loads (universal_newlines t)
  | None => Raise UnicodeDecodeError
  end.

(** [json.load(f)] on the opened [config_file] *)
Definition json_load : M value :=
  s <- read_text ;; lift (json_loads s).

(** [json.dump(config, f, indent=2)] on [config_file] opened for writing *)
Definition json_dump (config : value) : M unit :=
  write_text (json_dumps config).

(** *** Dynamic operations of the merge *)

(** [k in o] *)
Definition py_contains (k : text) (o : value) : outcome bool :=
  match o with
  | VDict d => Return (dict_contains k d)
  | VList l =>
      Return (existsb (fun x => match x with
                                | VStr s => text_eqb k s
                                | _ => false
                                end) l)
  | VStr s => Return (is_substring k s)
  | VNone | VBool _ | VInt _ | VFloat _ => Raise TypeError
  end.

(** [o[k] = v] *)
Definition py_setitem (o : value) (k : text) (v : value) : outcome value :=
  match o with
  | VDict d => Return (VDict (dict_set k v d))
  | _ => Raise TypeError
  end.

(** [o[k].update(other)]: the inner dict is updated in place, so [o] sees
    the change at the position of [k]. *)
Definition py_update_item (o : value) (k : text) (other : dict) : outcome value :=
  match o with
  | VDict d =>
      match dict_get k d with
      | Some (VDict inner) =>
          Return (VDict (dict_set k (VDict (dict_update inner other)) d))
      | Some _ => Raise AttributeError
      | None => Raise KeyError
      end
  | _ => Raise TypeError
  end.

Definition obind {A B} (o : outcome A) (k : A -> outcome B) : outcome B :=
  match o with
  | Return a => k a
  | Raise e => Raise e
  end.

(** *** [create_claude_config] *)

Definition mcpServers : text := lit "mcpServers".

(** Lines 30-49: the entries of [config["mcpServers"]]. *)
Definition server_entry (package url token : string) : value :=
  VDict [(lit "command", VStr (lit "uvx"));
         (lit "args", VList [VStr (lit package)]);
         (lit "env", VDict [(lit "AUTHENTIK_BASE_URL", VStr (lit url));
                            (lit "AUTHENTIK_TOKEN", VStr (lit token))])].

Definition buildDefaultEntries : dict :=
  [(lit "authentik-full",
    server_entry "authentik-mcp" "https://your-authentik-instance.com"
                 "your-api-token-here");
   (lit "authentik-diag",
    server_entry "authentik-diag-mcp" "https://your-authentik-instance.com"
                 "your-readonly-token-here")].

(** Lines 30-49: [config = {"mcpServers": ...}]. *)
Definition config_template (newEntries : dict) : value :=
  VDict [(mcpServers, VDict newEntries)].

(** Lines 57-62: the merge into the configuration that was read. *)
Definition merge_existing (newEntries : dict) (existing_config : value)
  : outcome value :=
  obind (py_contains mcpServers existing_config) (fun present =>
  obind (if negb present
         then py_setitem existing_config mcpServers (VDict [])
         else Return existing_config) (fun existing_config =>
  py_update_item existing_config mcpServers newEntries)).

Definition warning : string :=
  "Warning: Existing config file is not valid JSON, creating new one".

(** Lines 51-65: the configuration to write. *)
Definition merged_config (newEntries : dict) : M value :=
  present <- path_exists ;;
  if present then
    try_except
      (existing_config <- json_load ;;
       lift (merge_existing newEntries existing_config))
      is_JSONDecodeError
      (print warning ;;; ret (config_template newEntries))
  else ret (config_template newEntries).

(** Lines 51-69: merge and write. *)
Definition mergeAndPersist (newEntries : dict) : M unit :=
  config <- merged_config newEntries ;;
  json_dump config.

Definition config_file_of (home : string) : string :=
  (home ++ "/.config/claude-desktop/claude_desktop_config.json")%string.

Definition newline : string := String (ascii_of_nat 10) EmptyString.

(** Lines 15-77, with the entries of the template as a parameter. *)
Definition create_claude_config_with (newEntries : dict) : M string :=
  home <- path_home ;;
  let config_file := config_file_of home in
  mkdir_parents ;;;
  mergeAndPersist newEntries ;;;
  print ("Configuration written to: " ++ config_file)%string ;;;
  print (newline ++ "Next steps:")%string ;;;
  print "1. Edit the configuration file to add your actual Authentik URL and tokens" ;;;
  print "2. Restart Claude Desktop" ;;;
  print "3. The Authentik tools should be available in Claude" ;;;
  ret config_file.

Definition create_claude_config : M string :=
  create_claude_config_with buildDefaultEntries.

End Script.

(** ** Properties of the script *)

Section Properties.
Context {F : PyFloat}.

(** The bytes [json.dump(config, f, indent=2)] writes. *)
Definition file_bytes (config : value) : list byte :=
  map ascii_of_N (json_dumps config).

Lemma utf8_encode_json_dumps (config : value) :
  utf8_encode (json_dumps config) = Some (file_bytes config).
Proof.
  unfold utf8_encode, file_bytes.
  now rewrite utf8_encode_units_ascii by apply encode_json_chars.
Qed.

Lemma parse_file_ok (bs : list byte) (v : value) :
  parse_file bs = Return v -> value_ok v = true.
Proof.
  unfold parse_file. destruct (utf8_decode bs) as [t|] eqn:E; [|easy].
  apply json_loads_ok.
  apply (universal_newlines_scalar (length t)); [lia|].
  eapply utf8_decode_scalar, E.
Qed.

(** Reading back what was written gives the configuration. *)
Lemma parse_file_bytes (config : value) :
  value_ok config = true -> parse_file (file_bytes config) = Return config.
Proof.
  intros Hok. unfold parse_file, file_bytes, utf8_decode.
  pose proof (encode_json_chars config 0) as Hc. fold (json_dumps config) in Hc.
  rewrite map_N_of_ascii_of_N, utf8_decode_units_ascii by assumption.
  rewrite universal_newlines_ascii by assumption.
  now apply json_loads_dumps.
Qed.

Lemma json_dump_spec (config : value) (w : world) :
  json_dump config w =
  match open_write_fault w with
  | Some errno => (Raise (OSError errno), w)
  | None =>
      if dir_exists w then
        match write_fault w with
        | Some (errno, n) =>
            (Raise (OSError errno),
             set_file (Some (firstn n (file_bytes config))) w)
        | None => (Return tt, set_file (Some (file_bytes config)) w)
        end
      else (Raise (OSError ENOENT), w)
  end.
Proof.
  unfold json_dump, write_text. now rewrite utf8_encode_json_dumps.
Qed.

Lemma json_dump_Return (config : value) (w w' : world) :
  json_dump config w = (Return tt, w') ->
  w' = set_file (Some (file_bytes config)) w.
Proof.
  rewrite json_dump_spec. destruct (open_write_fault w); [easy|].
  destruct (dir_exists w); [|easy].
  destruct (write_fault w) as [[? ?]|]; [easy|]. now intros [= <-].
Qed.

Lemma json_load_spec (w : world) :
  json_load w =
  (match read_fault w with
   | Some errno => Raise (OSError errno)
   | None =>
       match file w with
       | Some bs => parse_file bs
       | None => Raise (OSError ENOENT)
       end
   end, w).
Proof.
  unfold json_load, bind, read_text, lift, parse_file.
  destruct (read_fault w); [reflexivity|].
  destruct (file w) as [bs|]; [|reflexivity].
  now destruct (utf8_decode bs).
Qed.

(** *** The merge step *)

(** The servers already configured, when [mcpServers] holds an object. *)
Definition existing_servers (d : dict) : dict :=
  match dict_get mcpServers d with
  | Some (VDict servers) => servers
  | _ => []
  end.

Lemma dict_set_twice {V} (k : text) (v v' : V) (d : list (text * V)) :
  dict_set k v' (dict_set k v d) = dict_set k v' d.
Proof.
  induction d as [|[k0 v0] d IH]; cbn [dict_set].
  - now rewrite text_eqb_refl.
  - destruct (text_eqb k k0) eqn:E; cbn [dict_set]; rewrite E; [reflexivity|].
    now rewrite IH.
Qed.

Lemma merge_existing_dict (newEntries d : dict) :
  merge_existing newEntries (VDict d) =
  match dict_get mcpServers d with
  | Some (VDict _) | None =>
      Return (VDict (dict_set mcpServers
                              (VDict (dict_update (existing_servers d) newEntries))
                              d))
  | Some _ => Raise AttributeError
  end.
Proof.
  unfold merge_existing, py_contains, dict_contains, existing_servers.
  destruct (dict_get mcpServers d) as [v|] eqn:E; cbn [negb obind].
  - unfold py_update_item. rewrite E. now destruct v.
  - cbn [py_setitem obind py_update_item].
    now rewrite dict_get_set_same, dict_set_twice.
Qed.

(** A parsed value that is not an object makes the merge fail with
    [TypeError]. *)
Lemma merge_existing_not_dict (newEntries : dict) (v : value) :
  (forall d, v <> VDict d) -> merge_existing newEntries v = Raise TypeError.
Proof.
  intros H. unfold merge_existing.
  destruct v as [|b|z|f|s|l|d]; try reflexivity.
  - cbn [py_contains obind]. now destruct (negb _).
  - cbn [py_contains obind]. now destruct (negb _).
  - now destruct (H d).
Qed.

(** The merge raises [TypeError] or [AttributeError], or returns. *)
Lemma merge_existing_raises (newEntries : dict) (v : value) (e : exn) :
  merge_existing newEntries v = Raise e -> e = TypeError \/ e = AttributeError.
Proof.
  destruct v as [|b|z|f|s|l|d];
    try (rewrite merge_existing_not_dict by easy; intros [= <-]; now left).
  rewrite merge_existing_dict.
  destruct (dict_get mcpServers d) as [[| | | | | |servers]|]; try easy;
    intros [= <-]; now right.
Qed.

Lemma merge_existing_ok (newEntries : dict) (v config : value) :
  dict_ok newEntries = true -> value_ok v = true ->
  merge_existing newEntries v = Return config -> value_ok config = true.
Proof.
  intros Hne Hv. destruct v as [|b|z|f|s|l|d];
    try (rewrite merge_existing_not_dict by easy; easy).
  rewrite merge_existing_dict.
  apply value_ok_dict in Hne as [Hne1 Hne2].
  apply value_ok_dict in Hv as [Hd1 Hd2].
  assert (Hserv : NoDup (dict_keys (existing_servers d))
                  /\ Forall entry_ok (existing_servers d)).
  { unfold existing_servers.
    destruct (dict_get mcpServers d) as [[| | | | | |servers]|] eqn:E;
      try (split; constructor).
    apply dict_get_In in E. rewrite Forall_forall in Hd2.
    destruct (Hd2 _ E) as [_ Hs]. cbn [snd] in Hs.
    now apply value_ok_dict in Hs. }
  destruct Hserv as [Hs1 Hs2].
  assert (Hnew : value_ok (VDict (dict_update (existing_servers d) newEntries))
                 = true).
  { apply value_ok_dict_intro; [now apply dict_update_NoDup|].
    now apply dict_update_Forall. }
  assert (Hres : value_ok
                   (VDict (dict_set mcpServers
                             (VDict (dict_update (existing_servers d) newEntries))
                             d)) = true).
  { apply value_ok_dict_intro; [now apply dict_set_NoDup|].
    apply dict_set_Forall; [|assumption].
    intros k' <-. split; [reflexivity|assumption]. }
  destruct (dict_get mcpServers d) as [[| | | | | |servers]|]; try easy;
    now intros [= <-].
Qed.

Lemma config_template_ok (newEntries : dict) :
  dict_ok newEntries = true -> value_ok (config_template newEntries) = true.
Proof.
  intros H. unfold config_template. apply value_ok_dict_intro.
  - repeat constructor. easy.
  - repeat constructor. exact H.
Qed.

(** *** The configuration to write, case by case *)

Lemma merged_config_fresh (newEntries : dict) (w : world) :
  file w = None ->
  merged_config newEntries w = (Return (config_template newEntries), w).
Proof. intros H. unfold merged_config, bind, path_exists. now rewrite H. Qed.

Lemma merged_config_existing (newEntries : dict) (w : world) (bs : list byte) :
  file w = Some bs ->
  merged_config newEntries w =
  match read_fault w with
  | Some errno => (Raise (OSError errno), w)
  | None =>
      match parse_file bs with
      | Return existing_config => (merge_existing newEntries existing_config, w)
      | Raise JSONDecodeError =>
          (Return (config_template newEntries), add_stdout warning w)
      | Raise e => (Raise e, w)
      end
  end.
Proof.
  intros H. unfold merged_config, bind at 1, path_exists. rewrite H.
  unfold try_except, bind at 1. rewrite json_load_spec, H.
  destruct (read_fault w); [reflexivity|].
  destruct (parse_file bs) as [v|e].
  - unfold lift. destruct (merge_existing newEntries v) as [c|e] eqn:E;
      [reflexivity|].
    now destruct (merge_existing_raises _ _ _ E) as [-> | ->].
  - now destruct e.
Qed.

(** The merge never touches the file, and its result is well formed. *)
Lemma merged_config_Return (newEntries : dict) (w w1 : world) (config : value) :
  dict_ok newEntries = true ->
  merged_config newEntries w = (Return config, w1) ->
  value_ok config = true /\ (w1 = w \/ w1 = add_stdout warning w).
Proof.
  intros Hne. destruct (file w) as [bs|] eqn:Ef.
  - rewrite (merged_config_existing _ _ _ Ef).
    destruct (read_fault w); [easy|].
    destruct (parse_file bs) as [v|e] eqn:Ep.
    + intros [= Hm <-]. split; [|now left].
      eapply merge_existing_ok; [eassumption| |exact Hm].
      eapply parse_file_ok, Ep.
    + destruct e; try easy. intros [= <- <-].
      split; [now apply config_template_ok|now right].
  - rewrite merged_config_fresh by assumption. intros [= <- <-].
    split; [now apply config_template_ok|now left].
Qed.

End Properties.

(** ** The claims of the specification *)

Section Claims.
Context {F : PyFloat}.

(** The file can be created and written in full. *)
Definition writable (w : world) : Prop :=
  dir_exists w = true /\ open_write_fault w = None /\ write_fault w = None.

(** What the script writes when the file holds the object [d]. *)
Definition merged_object (newEntries d : dict) : value :=
  VDict (dict_set mcpServers
                  (VDict (dict_update (existing_servers d) newEntries)) d).

Lemma merged_config_world (newEntries : dict) (w w1 : world)
      (r : outcome value) :
  merged_config newEntries w = (r, w1) ->
  w1 = w \/ w1 = add_stdout warning w.
Proof.
  destruct (file w) as [bs|] eqn:Ef.
  - rewrite (merged_config_existing _ _ _ Ef).
    destruct (read_fault w); [intros [= _ <-]; now left|].
    destruct (parse_file bs) as [v|e]; [intros [= _ <-]; now left|].
    destruct e; intros [= _ <-]; tauto.
  - rewrite merged_config_fresh by assumption. intros [= _ <-]. now left.
Qed.

Lemma writable_after_merge (newEntries : dict) (w w1 : world)
      (r : outcome value) :
  merged_config newEntries w = (r, w1) -> writable w -> writable w1.
Proof.
  intros H Hw. now destruct (merged_config_world _ _ _ _ H) as [-> | ->].
Qed.

Lemma mergeAndPersist_writes (newEntries : dict) (w w1 : world)
      (config : value) :
  merged_config newEntries w = (Return config, w1) -> writable w ->
  mergeAndPersist newEntries w
  = (Return tt, set_file (Some (file_bytes config)) w1).
Proof.
  intros H Hw. pose proof (writable_after_merge _ _ _ _ H Hw) as (H1 & H2 & H3).
  unfold mergeAndPersist, bind. rewrite H, json_dump_spec.
  now rewrite H1, H2, H3.
Qed.

Lemma mergeAndPersist_Return (newEntries : dict) (w w' : world) :
  mergeAndPersist newEntries w = (Return tt, w') ->
  exists config w1,
    merged_config newEntries w = (Return config, w1)
    /\ json_dump config w1 = (Return tt, w')
    /\ w' = set_file (Some (file_bytes config)) w1.
Proof.
  unfold mergeAndPersist, bind.
  destruct (merged_config newEntries w) as [[config|e] w1]; [|easy].
  intros H. exists config, w1. repeat split; [assumption|].
  now apply json_dump_Return.
Qed.

(** An existing object whose [mcpServers] is absent or an object is merged
    and written. *)
Lemma mergeAndPersist_object (newEntries d : dict) (w : world)
      (bs : list byte) :
  file w = Some bs -> read_fault w = None -> writable w ->
  parse_file bs = Return (VDict d) ->
  (dict_get mcpServers d = None
   \/ exists servers, dict_get mcpServers d = Some (VDict servers)) ->
  mergeAndPersist newEntries w
  = (Return tt, set_file (Some (file_bytes (merged_object newEntries d))) w).
Proof.
  intros Hf Hr Hw Hp Hd. apply mergeAndPersist_writes; [|assumption].
  rewrite (merged_config_existing _ _ _ Hf), Hr, Hp, merge_existing_dict.
  now destruct Hd as [-> | [servers ->]].
Qed.

Lemma merged_object_ok (newEntries d : dict) :
  dict_ok newEntries = true -> value_ok (VDict d) = true ->
  value_ok (merged_object newEntries d) = true.
Proof.
  intros Hne Hd.
  destruct (dict_get mcpServers d) as [v|] eqn:E.
  - destruct v as [| | | | | |servers].
    7:{ apply (merge_existing_ok newEntries (VDict d)); try assumption.
        now rewrite merge_existing_dict, E. }
    all: unfold merged_object, existing_servers; rewrite E;
      apply value_ok_dict in Hd as [Hd1 Hd2];
      apply value_ok_dict in Hne as [Hn1 Hn2];
      (apply value_ok_dict_intro; [now apply dict_set_NoDup|]);
      (apply dict_set_Forall; [|assumption]); intros k' <-;
      (split; [reflexivity|]); cbn [snd];
      (apply value_ok_dict_intro;
       [apply dict_update_NoDup; constructor
       |apply dict_update_Forall; [assumption|constructor]]).
  - apply (merge_existing_ok newEntries (VDict d)); try assumption.
    now rewrite merge_existing_dict, E.
Qed.

Lemma merged_object_servers (newEntries d : dict) :
  match merged_object newEntries d with
  | VDict d' =>
      dict_get mcpServers d'
      = Some (VDict (dict_update (existing_servers d) newEntries))
      /\ (forall k, k <> mcpServers -> dict_get k d' = dict_get k d)
      /\ dict_keys d' = (if dict_contains mcpServers d then dict_keys d
                         else dict_keys d ++ [mcpServers])
  | _ => False
  end.
Proof.
  unfold merged_object. split; [apply dict_get_set_same|]. split.
  - intros k Hk. apply dict_get_set_other. congruence.
  - apply dict_keys_set.
Qed.

(** C1: when the existing file parses to an object whose [mcpServers] is an
    object or is absent, the merge succeeds and the written file, read
    back, holds under [mcpServers] every entry of [newEntries]; an existing
    server whose identifier [newEntries] lacks keeps its value; and when
    [mcpServers] was absent the servers are exactly [newEntries]. *)
Theorem merge_keeps_old_and_adds_new (newEntries d : dict) (w : world)
        (bs : list byte) :
  dict_ok newEntries = true ->
  file w = Some bs -> read_fault w = None -> writable w ->
  parse_file bs = Return (VDict d) ->
  (dict_get mcpServers d = None
   \/ exists servers, dict_get mcpServers d = Some (VDict servers)) ->
  exists w' bs' d' servers',
    mergeAndPersist newEntries w = (Return tt, w')
    /\ file w' = Some bs'
    /\ parse_file bs' = Return (VDict d')
    /\ dict_get mcpServers d' = Some (VDict servers')
    /\ (forall k v, dict_get k newEntries = Some v ->
                    dict_get k servers' = Some v)
    /\ (forall servers k, dict_get mcpServers d = Some (VDict servers) ->
                          dict_get k newEntries = None ->
                          dict_get k servers' = dict_get k servers)
    /\ (dict_get mcpServers d = None -> servers' = newEntries).
Proof.
  intros Hne Hf Hr Hw Hp Hd.
  pose proof (parse_file_ok _ _ Hp) as Hok.
  pose proof (merged_object_servers newEntries d) as Hm.
  pose proof (merged_object_ok _ _ Hne Hok) as Hmok.
  unfold merged_object in *.
  set (servers' := dict_update (existing_servers d) newEntries) in *.
  set (d' := dict_set mcpServers (VDict servers') d) in *.
  destruct Hm as (Hget & _ & _).
  exists (set_file (Some (file_bytes (VDict d'))) w),
         (file_bytes (VDict d')), d', servers'.
  split; [now apply mergeAndPersist_object with bs|].
  split; [reflexivity|].
  split; [now apply parse_file_bytes|].
  split; [assumption|].
  apply value_ok_dict in Hne as [Hnd _]. repeat split.
  - intros k v Hk. now apply dict_get_update_new.
  - intros servers k Hs Hk. unfold servers', existing_servers. rewrite Hs.
    now apply dict_get_update_other.
  - intros Hnone. unfold servers', existing_servers. rewrite Hnone.
    now apply dict_update_empty.
Qed.

(** C2: when the existing file decodes but is not valid JSON, the merge
    does not raise: it prints the warning, and the file it writes is the
    encoding of [{"mcpServers": newEntries}], which reads back as exactly
    that configuration. *)
Theorem invalid_json_is_replaced (newEntries : dict) (w : world)
        (bs : list byte) :
  dict_ok newEntries = true ->
  file w = Some bs -> read_fault w = None -> writable w ->
  parse_file bs = Raise JSONDecodeError ->
  exists w',
    mergeAndPersist newEntries w = (Return tt, w')
    /\ stdout w' = stdout w ++ [warning]
    /\ file w' = Some (file_bytes (config_template newEntries))
    /\ parse_file (file_bytes (config_template newEntries))
       = Return (VDict [(mcpServers, VDict newEntries)]).
Proof.
  intros Hne Hf Hr Hw Hp.
  exists (set_file (Some (file_bytes (config_template newEntries)))
                   (add_stdout warning w)).
  split; [|split; [reflexivity|split; [reflexivity|]]].
  - apply mergeAndPersist_writes; [|assumption].
    now rewrite (merged_config_existing _ _ _ Hf), Hr, Hp.
  - apply parse_file_bytes. now apply config_template_ok.
Qed.

Lemma buildDefaultEntries_ok : dict_ok buildDefaultEntries = true.
Proof. reflexivity. Qed.

(** C3: with no file at the target path and a healthy file system,
    [create_claude_config] creates the directory and writes the encoding of
    [{"mcpServers": <the two default entries>}]; read back, the file is
    exactly that object, with no other top-level key. *)
Theorem fresh_file_is_the_template (w : world) :
  healthy w -> file w = None ->
  exists w',
    create_claude_config w = (Return (config_file_of (home w)), w')
    /\ dir_exists w' = true
    /\ file w' = Some (file_bytes (config_template buildDefaultEntries))
    /\ parse_file (file_bytes (config_template buildDefaultEntries))
       = Return (VDict [(mcpServers, VDict buildDefaultEntries)])
    /\ dict_keys buildDefaultEntries
       = [lit "authentik-full"; lit "authentik-diag"].
Proof.
  intros (Hm & Hr & Ho & Hwf) Hf.
  unfold create_claude_config, create_claude_config_with.
  unfold bind at 1, path_home. unfold bind at 1, mkdir_parents. rewrite Hm.
  unfold bind at 1.
  rewrite (mergeAndPersist_writes buildDefaultEntries (set_dir_exists true w)
             (set_dir_exists true w) (config_template buildDefaultEntries)).
  - eexists. split; [reflexivity|]. split; [reflexivity|].
    split; [reflexivity|]. split; [|reflexivity].
    apply parse_file_bytes, config_template_ok, buildDefaultEntries_ok.
  - now apply merged_config_fresh.
  - now repeat split.
Qed.

(** C4: an identifier that is both among the existing servers and in
    [newEntries] maps, in the written file, to the value of [newEntries]. *)
Theorem colliding_entry_is_overwritten (newEntries d servers : dict)
        (w : world) (bs : list byte) (k : text) (old new : value) :
  dict_ok newEntries = true ->
  file w = Some bs -> read_fault w = None -> writable w ->
  parse_file bs = Return (VDict d) ->
  dict_get mcpServers d = Some (VDict servers) ->
  dict_get k servers = Some old ->
  dict_get k newEntries = Some new ->
  exists w' bs' d' servers',
    mergeAndPersist newEntries w = (Return tt, w')
    /\ file w' = Some bs'
    /\ parse_file bs' = Return (VDict d')
    /\ dict_get mcpServers d' = Some (VDict servers')
    /\ dict_get k servers' = Some new.
Proof.
  intros Hne Hf Hr Hw Hp Hs _ Hnew.
  pose proof (parse_file_ok _ _ Hp) as Hok.
  pose proof (merged_object_servers newEntries d) as (Hget & _ & _).
  pose proof (merged_object_ok _ _ Hne Hok) as Hmok.
  unfold merged_object in *.
  exists (set_file (Some (file_bytes (merged_object newEntries d))) w),
         (file_bytes (merged_object newEntries d)),
         (dict_set mcpServers
                   (VDict (dict_update (existing_servers d) newEntries)) d),
         (dict_update (existing_servers d) newEntries).
  split; [apply mergeAndPersist_object with bs; eauto|].
  split; [reflexivity|].
  split; [now apply parse_file_bytes|].
  split; [assumption|].
  apply value_ok_dict in Hne as [Hnd _]. now apply dict_get_update_new.
Qed.

(** C5: on a fresh target, a second run with the same [newEntries] leaves
    the file byte for byte as the first run wrote it. *)
Theorem second_run_writes_the_same_bytes (newEntries : dict) (w : world) :
  dict_ok newEntries = true ->
  file w = None -> read_fault w = None -> writable w ->
  exists w1 w2,
    mergeAndPersist newEntries w = (Return tt, w1)
    /\ mergeAndPersist newEntries w1 = (Return tt, w2)
    /\ file w1 = Some (file_bytes (config_template newEntries))
    /\ file w2 = file w1.
Proof.
  intros Hne Hf Hr Hw.
  set (bs := file_bytes (config_template newEntries)).
  exists (set_file (Some bs) w), (set_file (Some bs) (set_file (Some bs) w)).
  assert (H1 : mergeAndPersist newEntries w = (Return tt, set_file (Some bs) w)).
  { apply mergeAndPersist_writes; [|assumption]. now apply merged_config_fresh. }
  split; [assumption|]. split; [|split; reflexivity].
  assert (Hp : parse_file bs = Return (VDict [(mcpServers, VDict newEntries)])).
  { apply parse_file_bytes. now apply config_template_ok. }
  rewrite (mergeAndPersist_object newEntries [(mcpServers, VDict newEntries)]
             (set_file (Some bs) w) bs); try easy.
  - unfold merged_object, existing_servers. cbn [dict_get dict_set].
    rewrite text_eqb_refl. rewrite dict_update_self; [reflexivity|].
    now apply value_ok_dict in Hne.
  - right. exists newEntries. cbn [dict_get]. now rewrite text_eqb_refl.
Qed.

(** C6: whenever [mergeAndPersist] returns, the file it wrote is the
    encoding of the configuration it held in memory, and parsing the file
    gives that configuration back. *)
Theorem written_file_parses_back (newEntries : dict) (w w' : world) :
  dict_ok newEntries = true ->
  mergeAndPersist newEntries w = (Return tt, w') ->
  exists config w1,
    merged_config newEntries w = (Return config, w1)
    /\ json_dump config w1 = (Return tt, w')
    /\ file w' = Some (file_bytes config)
    /\ parse_file (file_bytes config) = Return config.
Proof.
  intros Hne H.
  destruct (mergeAndPersist_Return _ _ _ H) as (config & w1 & Hm & Hd & ->).
  exists config, w1. repeat split; try assumption.
  apply parse_file_bytes. now destruct (merged_config_Return _ _ _ _ Hne Hm).
Qed.

(** A server entry: a command, an argument list, and an environment of
    exactly a base URL and a token, all strings. *)
Definition is_server_entry (v : value) : Prop :=
  exists command args url token,
    v = VDict [(lit "command", VStr command);
               (lit "args", VList (map VStr args));
               (lit "env", VDict [(lit "AUTHENTIK_BASE_URL", VStr url);
                                  (lit "AUTHENTIK_TOKEN", VStr token)])].

(** C7: the default entries are a fixed mapping, the same in every
    environment: exactly the servers [authentik-full] and [authentik-diag],
    each with the command [uvx], one argument, and the two placeholders;
    and they are what [create_claude_config] merges. *)
Theorem default_entries_are_fixed :
  dict_keys buildDefaultEntries = [lit "authentik-full"; lit "authentik-diag"]
  /\ Forall (fun kv => is_server_entry (snd kv)) buildDefaultEntries
  /\ dict_get (lit "authentik-full") buildDefaultEntries
     = Some (server_entry "authentik-mcp" "https://your-authentik-instance.com"
                          "your-api-token-here")
  /\ dict_get (lit "authentik-diag") buildDefaultEntries
     = Some (server_entry "authentik-diag-mcp"
                          "https://your-authentik-instance.com"
                          "your-readonly-token-here")
  /\ (forall w1 w2 : world,
        fst (merged_config buildDefaultEntries (set_file None w1))
        = fst (merged_config buildDefaultEntries (set_file None w2)))
  /\ create_claude_config = create_claude_config_with buildDefaultEntries.
Proof.
  split; [reflexivity|]. split.
  - repeat constructor; cbn [snd]; unfold server_entry, is_server_entry.
    + now exists (lit "uvx"), [lit "authentik-mcp"],
        (lit "https://your-authentik-instance.com"), (lit "your-api-token-here").
    + now exists (lit "uvx"), [lit "authentik-diag-mcp"],
        (lit "https://your-authentik-instance.com"),
        (lit "your-readonly-token-here").
  - repeat split; try reflexivity.
Qed.

(** C8: only [JSONDecodeError] is handled. A failing [mkdir], a failing
    read, undecodable bytes, a failing open for writing and a failing write
    each end the run with that exception; nothing is retried, and after
    a failure before the write the file is as it was. [mergeAndPersist]
    itself never raises [JSONDecodeError]. *)
Theorem only_decode_errors_are_handled (newEntries : dict) (w : world) :
  (forall errno, mkdir_fault w = Some errno ->
     create_claude_config_with newEntries w = (Raise (OSError errno), w))
  /\ (forall errno, file w <> None -> read_fault w = Some errno ->
        mergeAndPersist newEntries w = (Raise (OSError errno), w))
  /\ (forall bs e, file w = Some bs -> read_fault w = None ->
        parse_file bs = Raise e -> e <> JSONDecodeError ->
        mergeAndPersist newEntries w = (Raise e, w))
  /\ (forall config w1 errno,
        merged_config newEntries w = (Return config, w1) ->
        open_write_fault w = Some errno ->
        mergeAndPersist newEntries w = (Raise (OSError errno), w1)
        /\ file w1 = file w)
  /\ (forall config w1 errno n,
        merged_config newEntries w = (Return config, w1) ->
        open_write_fault w = None -> dir_exists w = true ->
        write_fault w = Some (errno, n) ->
        mergeAndPersist newEntries w
        = (Raise (OSError errno),
           set_file (Some (firstn n (file_bytes config))) w1))
  /\ (forall w', mergeAndPersist newEntries w <> (Raise JSONDecodeError, w')).
Proof.
  split; [|split; [|split; [|split; [|split]]]].
  - intros errno H. unfold create_claude_config_with, bind, path_home,
      mkdir_parents. now rewrite H.
  - intros errno Hf Hr. destruct (file w) as [bs|] eqn:Ef; [|easy].
    unfold mergeAndPersist, bind.
    now rewrite (merged_config_existing _ _ _ Ef), Hr.
  - intros bs e Hf Hr Hp He. unfold mergeAndPersist, bind.
    rewrite (merged_config_existing _ _ _ Hf), Hr, Hp. now destruct e.
  - intros config w1 errno Hm Ho.
    assert (Hw1 : open_write_fault w1 = Some errno /\ file w1 = file w)
      by now destruct (merged_config_world _ _ _ _ Hm) as [-> | ->].
    destruct Hw1 as [Ho1 Hf1]. split; [|assumption].
    unfold mergeAndPersist, bind. now rewrite Hm, json_dump_spec, Ho1.
  - intros config w1 errno n Hm Ho Hd Hwf.
    assert (Hw1 : open_write_fault w1 = None /\ dir_exists w1 = true
                  /\ write_fault w1 = Some (errno, n))
      by now destruct (merged_config_world _ _ _ _ Hm) as [-> | ->].
    destruct Hw1 as (Ho1 & Hd1 & Hwf1).
    unfold mergeAndPersist, bind.
    now rewrite Hm, json_dump_spec, Ho1, Hd1, Hwf1.
  - intros w' H. unfold mergeAndPersist, bind in H.
    destruct (merged_config newEntries w) as [[config|e] w1] eqn:Em.
    + rewrite json_dump_spec in H.
      destruct (open_write_fault w1); [easy|].
      destruct (dir_exists w1); [|easy].
      now destruct (write_fault w1) as [[? ?]|].
    + injection H as -> <-. revert Em.
      destruct (file w) as [bs|] eqn:Ef.
      * rewrite (merged_config_existing _ _ _ Ef).
        destruct (read_fault w); [easy|].
        destruct (parse_file bs) as [v|e] eqn:Ep.
        -- intros [= Hm _].
           now destruct (merge_existing_raises _ _ _ Hm).
        -- now destruct e.
      * now rewrite merged_config_fresh.
Qed.

(** C9: when the existing file parses to a JSON value that is not an
    object, nothing is recovered: the run ends with [TypeError] and the
    environment, the file included, is as it was. *)
Theorem non_object_file_raises_type_error (newEntries : dict) (w : world)
        (bs : list byte) (v : value) :
  file w = Some bs -> read_fault w = None ->
  parse_file bs = Return v -> (forall d, v <> VDict d) ->
  mergeAndPersist newEntries w = (Raise TypeError, w).
Proof.
  intros Hf Hr Hp Hv. unfold mergeAndPersist, bind.
  rewrite (merged_config_existing _ _ _ Hf), Hr, Hp.
  now rewrite merge_existing_not_dict.
Qed.

(** C10: when the existing file parses to an object and the run returns,
    the written file, read back, is an object in which every top-level key
    other than [mcpServers] has the value it had, in the order it had;
    [mcpServers] keeps its place, or comes last when it was absent. *)
Theorem other_top_level_keys_are_kept (newEntries d : dict) (w w' : world)
        (bs : list byte) :
  dict_ok newEntries = true ->
  file w = Some bs -> parse_file bs = Return (VDict d) ->
  mergeAndPersist newEntries w = (Return tt, w') ->
  exists bs' d',
    file w' = Some bs'
    /\ parse_file bs' = Return (VDict d')
    /\ (forall k, k <> mcpServers -> dict_get k d' = dict_get k d)
    /\ dict_keys d' = (if dict_contains mcpServers d then dict_keys d
                       else dict_keys d ++ [mcpServers]).
Proof.
  intros Hne Hf Hp H.
  destruct (mergeAndPersist_Return _ _ _ H) as (config & w1 & Hm & _ & ->).
  pose proof (merged_config_Return _ _ _ _ Hne Hm) as [Hok _].
  rewrite (merged_config_existing _ _ _ Hf) in Hm.
  destruct (read_fault w); [easy|]. rewrite Hp, merge_existing_dict in Hm.
  assert (Hc : config = merged_object newEntries d).
  { destruct (dict_get mcpServers d) as [[| | | | | |servers]|]; try easy;
      now injection Hm as <- _. }
  subst config. pose proof (merged_object_servers newEntries d) as Hs.
  unfold merged_object in *.
  eexists _, _. split; [reflexivity|].
  split; [now apply parse_file_bytes|]. tauto.
Qed.

End Claims.

(** ** The rest of the script: [example_usage] and the main block *)

(** A text written with [^] for the double quote. *)
Fixpoint with_quotes (s : string) : string :=
  match s with
  | EmptyString => EmptyString
  | String c r =>
      String (if Ascii.eqb c "^" then ascii_of_nat 34 else c) (with_quotes r)
  end.

(** Lines 83-121: the lines of the [examples] literal, which starts and
    ends with a line break. *)
Definition examples_lines : list string :=
  ["Example Claude prompts you can use with the Authentik MCP servers:";
   EmptyString;
   "## User Management";
   "- ^Show me all users in Authentik^";
   "- ^Create a new user named John Doe with email john@example.com^";
   "- ^Find users who haven't logged in recently^";
   "- ^Update the email for user with ID 123^";
   EmptyString;
   "## Event Analysis  ";
   "- ^Show me recent authentication events^";
   "- ^Find failed login attempts in the last 24 hours^";
   "- ^Show me events for a specific user^";
   "- ^Analyze security events from the past week^";
   EmptyString;
   "## Group Management";
   "- ^List all groups in Authentik^";
   "- ^Create a new group called 'Developers'^";
   "- ^Add user to the 'Administrators' group^";
   "- ^Show members of the 'Support' group^";
   EmptyString;
   "## Application Management";
   "- ^Show all configured applications^";
   "- ^Create a new OAuth2 application^";
   "- ^Update application settings^";
   "- ^Show application usage statistics^";
   EmptyString;
   "## Diagnostic Queries (using authentik-diag-mcp)";
   "- ^Check the health of my Authentik instance^";
   "- ^Show system information and version^";
   "- ^Generate a security report^";
   "- ^Show recent system events^";
   EmptyString;
   "## Advanced Queries";
   "- ^Show me users who are in multiple groups^";
   "- ^Find applications with misconfigured security settings^";
   "- ^Generate a compliance report for user access^";
   "- ^Show authentication patterns for analysis^"]%string.

Definition examples : string :=
  (String.concat EmptyString
                 (map (fun l => newline ++ with_quotes l) examples_lines)
   ++ newline)%string.

(** Lines 80-123. *)
Definition example_usage : M unit := print examples.

Fixpoint string_repeat (c : ascii) (n : nat) : string :=
  match n with
  | O => EmptyString
  | S n' => String c (string_repeat c n')
  end.

Definition banner : list string :=
  ["Authentik MCP Server Setup Example";
   "=================================="]%string.

(** What [create_claude_config] prints after the file is written. *)
Definition next_steps (config_file : string) : list string :=
  [("Configuration written to: " ++ config_file);
   (newline ++ "Next steps:");
   "1. Edit the configuration file to add your actual Authentik URL and tokens";
   "2. Restart Claude Desktop";
   "3. The Authentik tools should be available in Claude"]%string.

(** What the main block prints after [create_claude_config] returned. *)
Definition closing (config_file : string) : list string :=
  [(newline ++ string_repeat "=" 50);
   examples;
   (newline ++ "Configuration file created!");
   ("Edit " ++ config_file ++ " with your Authentik details.")]%string.

Section MainBlock.
Context {F : PyFloat}.

(** Lines 126-139: [if __name__ == "__main__":]. *)
Definition main : M unit :=
  print "Authentik MCP Server Setup Example" ;;;
  print "==================================" ;;;
  claude_config_file <- create_claude_config ;;
  print (newline ++ string_repeat "=" 50)%string ;;;
  example_usage ;;;
  print (newline ++ "Configuration file created!")%string ;;;
  print ("Edit " ++ claude_config_file ++ " with your Authentik details.")%string.

(** *** What a run changes in the environment *)

(** The optional warning of a run. *)
Definition warned (pre : list string) : Prop := pre = [] \/ pre = [warning].

Definition add_lines (lines : list string) (w : world) : world :=
  fold_left (fun w l => add_stdout l w) lines w.

Lemma stdout_add_lines (lines : list string) (w : world) :
  stdout (add_lines lines w) = stdout w ++ lines.
Proof.
  revert w. induction lines as [|l lines IH]; intros w; cbn [add_lines fold_left].
  - now rewrite app_nil_r.
  - unfold add_lines in IH. rewrite IH. cbn [stdout add_stdout].
    now rewrite <- app_assoc.
Qed.

Lemma add_lines_fields (lines : list string) (w : world) :
  dir_exists (add_lines lines w) = dir_exists w
  /\ file (add_lines lines w) = file w
  /\ home (add_lines lines w) = home w.
Proof.
  revert w. induction lines as [|l lines IH]; intros w; [easy|].
  cbn [add_lines fold_left]. unfold add_lines in IH.
  destruct (IH (add_stdout l w)) as (H1 & H2 & H3). now rewrite H1, H2, H3.
Qed.

(** A run prints at most the warning and touches nothing but the file. *)
Lemma mergeAndPersist_world (newEntries : dict) (w w' : world)
      (r : outcome unit) :
  mergeAndPersist newEntries w = (r, w') ->
  exists pre f, warned pre /\ w' = set_file f (add_lines pre w).
Proof.
  unfold mergeAndPersist, bind.
  destruct (merged_config newEntries w) as [[config|e] w1] eqn:Em.
  - assert (Hw1 : exists pre, warned pre /\ w1 = add_lines pre w).
    { destruct (merged_config_world _ _ _ _ Em) as [-> | ->];
        [exists []|exists [warning]]; split; try reflexivity;
        [now left|now right]. }
    destruct Hw1 as (pre & Hpre & ->). rewrite json_dump_spec.
    destruct (open_write_fault _).
    { intros [= _ <-]. exists pre, (file (add_lines pre w)).
      split; [assumption|]. now destruct (add_lines pre w). }
    destruct (dir_exists _).
    2:{ intros [= _ <-]. exists pre, (file (add_lines pre w)).
        split; [assumption|]. now destruct (add_lines pre w). }
    destruct (write_fault _) as [[errno n]|]; intros [= _ <-]; eauto.
  - intros [= _ <-].
    destruct (merged_config_world _ _ _ _ Em) as [-> | ->].
    + exists [], (file w). split; [now left|]. now destruct w.
    + exists [warning], (file (add_stdout warning w)).
      split; [now right|]. now destruct w.
Qed.


(** What was merged: an object whose [mcpServers] is an object holding
    every new entry. *)
Definition holds_entries (newEntries : dict) (config : value) : Prop :=
  exists d servers,
    config = VDict d
    /\ dict_get mcpServers d = Some (VDict servers)
    /\ forall k v, dict_get k newEntries = Some v -> dict_get k servers = Some v.

Lemma merged_config_holds (newEntries : dict) (w w1 : world) (config : value) :
  dict_ok newEntries = true ->
  merged_config newEntries w = (Return config, w1) ->
  holds_entries newEntries config.
Proof.
  intros Hne. pose proof Hne as Hne'. apply value_ok_dict in Hne' as [Hnd _].
  assert (Htemplate : holds_entries newEntries (config_template newEntries)).
  { exists [(mcpServers, VDict newEntries)], newEntries.
    split; [reflexivity|]. split; [|easy].
    cbn [dict_get]. now rewrite text_eqb_refl. }
  destruct (file w) as [bs|] eqn:Ef.
  - rewrite (merged_config_existing _ _ _ Ef).
    destruct (read_fault w); [easy|].
    destruct (parse_file bs) as [v|e].
    + intros [= Hm _]. destruct v as [|b|z|f|s|l|d];
        try (rewrite merge_existing_not_dict in Hm by easy; easy).
      rewrite merge_existing_dict in Hm.
      assert (Hc : config = merged_object newEntries d).
      { destruct (dict_get mcpServers d) as [[| | | | | |servers]|]; try easy;
          now injection Hm as <-. }
      subst config. unfold merged_object.
      eexists _, _. split; [reflexivity|].
      split; [apply dict_get_set_same|].
      intros k v Hk. now apply dict_get_update_new.
    + destruct e; try easy. now intros [= <- _].
  - rewrite merged_config_fresh by assumption. now intros [= <- _].
Qed.

(** X1: when the file is an object whose [mcpServers] is not an object
    (a number, a string, a list, [null]), the run ends with
    [AttributeError] and the environment, the file included, is as it
    was. *)
Theorem servers_not_an_object_raises (newEntries d : dict) (w : world)
        (bs : list byte) (v : value) :
  file w = Some bs -> read_fault w = None ->
  parse_file bs = Return (VDict d) ->
  dict_get mcpServers d = Some v -> (forall servers, v <> VDict servers) ->
  mergeAndPersist newEntries w = (Raise AttributeError, w).
Proof.
  intros Hf Hr Hp Hd Hv. unfold mergeAndPersist, bind.
  rewrite (merged_config_existing _ _ _ Hf), Hr, Hp, merge_existing_dict, Hd.
  destruct v; try reflexivity. now destruct (Hv d0).
Qed.

Lemma run_holds_new_entries (newEntries : dict) (w w' : world) :
  dict_ok newEntries = true ->
  mergeAndPersist newEntries w = (Return tt, w') ->
  exists bs d' servers',
    file w' = Some bs
    /\ parse_file bs = Return (VDict d')
    /\ dict_get mcpServers d' = Some (VDict servers')
    /\ forall k v, dict_get k newEntries = Some v ->
                   dict_get k servers' = Some v.
Proof.
  intros Hne H.
  destruct (mergeAndPersist_Return _ _ _ H) as (config & w1 & Hm & _ & ->).
  destruct (merged_config_holds _ _ _ _ Hne Hm) as (d & servers & -> & Hs & Hk).
  exists (file_bytes (VDict d)), d, servers.
  split; [reflexivity|]. split; [|now split].
  apply parse_file_bytes. now destruct (merged_config_Return _ _ _ _ Hne Hm).
Qed.

(** X2: whatever the file held before, after a run that returns the file
    parses to an object whose [mcpServers] is an object holding every entry
    of [newEntries]. *)
Theorem written_file_holds_new_entries (newEntries : dict) (w w' : world) :
  dict_ok newEntries = true ->
  mergeAndPersist newEntries w = (Return tt, w') ->
  exists bs d' servers',
    file w' = Some bs
    /\ parse_file bs = Return (VDict d')
    /\ dict_get mcpServers d' = Some (VDict servers')
    /\ forall k v, dict_get k newEntries = Some v ->
                   dict_get k servers' = Some v.
Proof. apply run_holds_new_entries. Qed.

(** X3: a run that returns leaves an environment that a further run does
    not change: the second run returns, prints nothing, and writes the same
    bytes. *)
Theorem rerun_changes_nothing (newEntries : dict) (w w1 : world) :
  dict_ok newEntries = true -> read_fault w = None ->
  mergeAndPersist newEntries w = (Return tt, w1) ->
  mergeAndPersist newEntries w1 = (Return tt, w1).
Proof.
  intros Hne Hr H.
  destruct (mergeAndPersist_Return _ _ _ H) as (config & w0 & Hm & Hd & ->).
  destruct (merged_config_holds _ _ _ _ Hne Hm) as (d & servers & -> & Hs & Hk).
  pose proof (merged_config_Return _ _ _ _ Hne Hm) as [Hok Hw0].
  assert (Hwr : writable w0 /\ read_fault w0 = None).
  { rewrite json_dump_spec in Hd.
    destruct (open_write_fault w0) eqn:E1; [easy|].
    destruct (dir_exists w0) eqn:E2; [|easy].
    destruct (write_fault w0) as [[? ?]|] eqn:E3; [easy|].
    split; [now repeat split|]. now destruct Hw0 as [-> | ->]. }
  destruct Hwr as [(H1 & H2 & H3) Hr0].
  rewrite (mergeAndPersist_object newEntries d
             (set_file (Some (file_bytes (VDict d))) w0) (file_bytes (VDict d)));
    try easy.
  - unfold merged_object, existing_servers. rewrite Hs.
    rewrite (dict_update_same newEntries servers).
    + now rewrite dict_set_present.
    + intros k v Hin. apply Hk. apply dict_get_unique; [|assumption].
      now apply value_ok_dict in Hne.
  - now apply parse_file_bytes.
  - right. now exists servers.
Qed.

Lemma dict_contains_set_other {V} (k k' : text) (v : V) (d : list (text * V)) :
  k <> k' -> dict_contains k' (dict_set k v d) = dict_contains k' d.
Proof. intros H. unfold dict_contains. now rewrite dict_get_set_other. Qed.

(** [d.update(other)] keeps the keys of [d] in place and appends the keys
    [d] lacks, in the order of [other]. *)
Lemma dict_keys_update {V} (other d : list (text * V)) :
  NoDup (dict_keys other) ->
  dict_keys (dict_update d other)
  = dict_keys d
    ++ filter (fun k => negb (dict_contains k d)) (dict_keys other).
Proof.
  revert d. induction other as [|[k v] other IH]; intros d Hnd.
  - cbn. now rewrite app_nil_r.
  - inversion Hnd as [|? ? Hk Hnd']; subst.
    rewrite dict_update_cons, IH by assumption. cbn [fst snd dict_keys map filter].
    rewrite dict_keys_set.
    assert (Hf : filter (fun k0 => negb (dict_contains k0 (dict_set k v d)))
                        (map fst other)
                 = filter (fun k0 => negb (dict_contains k0 d)) (map fst other)).
    { apply filter_ext_in. intros k' Hin. rewrite dict_contains_set_other; [easy|].
      intros ->. contradiction. }
    unfold dict_keys in *. rewrite Hf.
    destruct (dict_contains k d); cbn [negb]; [reflexivity|].
    now rewrite <- app_assoc.
Qed.

(** X4: when the file is an object whose [mcpServers] is an object, the
    servers of the written file are the existing ones in their order,
    followed by the new identifiers that did not exist, in the order of
    [newEntries]. *)
Theorem servers_keep_their_order (newEntries d servers : dict) (w : world)
        (bs : list byte) :
  dict_ok newEntries = true ->
  file w = Some bs -> read_fault w = None -> writable w ->
  parse_file bs = Return (VDict d) ->
  dict_get mcpServers d = Some (VDict servers) ->
  exists w' bs' d' servers',
    mergeAndPersist newEntries w = (Return tt, w')
    /\ file w' = Some bs'
    /\ parse_file bs' = Return (VDict d')
    /\ dict_get mcpServers d' = Some (VDict servers')
    /\ dict_keys servers'
       = dict_keys servers
         ++ filter (fun k => negb (dict_contains k servers))
                   (dict_keys newEntries).
Proof.
  intros Hne Hf Hr Hw Hp Hs.
  pose proof (parse_file_ok _ _ Hp) as Hok.
  pose proof (merged_object_ok _ _ Hne Hok) as Hmok.
  exists (set_file (Some (file_bytes (merged_object newEntries d))) w),
         (file_bytes (merged_object newEntries d)),
         (dict_set mcpServers (VDict (dict_update servers newEntries)) d),
         (dict_update servers newEntries).
  assert (Hm : merged_object newEntries d
               = VDict (dict_set mcpServers
                                 (VDict (dict_update servers newEntries)) d)).
  { unfold merged_object, existing_servers. now rewrite Hs. }
  split; [apply mergeAndPersist_object with bs; eauto|].
  split; [reflexivity|].
  split; [rewrite <- Hm; now apply parse_file_bytes|].
  split; [apply dict_get_set_same|].
  apply dict_keys_update. now apply value_ok_dict in Hne.
Qed.

(** X5: a run prints the warning exactly when the file exists, can be read
    and decoded, and is not valid JSON; it prints nothing else, whether it
    returns or raises. *)
Theorem warning_only_for_invalid_json (newEntries : dict) (w w' : world)
        (r : outcome unit) :
  mergeAndPersist newEntries w = (r, w') ->
  stdout w' =
  match file w, read_fault w with
  | Some bs, None =>
      match parse_file bs with
      | Raise JSONDecodeError => stdout w ++ [warning]
      | _ => stdout w
      end
  | _, _ => stdout w
  end.
Proof.
  unfold mergeAndPersist, bind.
  destruct (merged_config newEntries w) as [[config|e] w1] eqn:Em.
  - rewrite json_dump_spec. intros H.
    assert (Hs : stdout w' = stdout w1).
    { destruct (open_write_fault w1); [now injection H as _ <-|].
      destruct (dir_exists w1); [|now injection H as _ <-].
      now destruct (write_fault w1) as [[? ?]|]; injection H as _ <-. }
    rewrite Hs. clear H Hs. revert Em.
    destruct (file w) as [bs|] eqn:Ef.
    + rewrite (merged_config_existing _ _ _ Ef).
      destruct (read_fault w); [easy|].
      destruct (parse_file bs) as [v|e]; [now intros [= _ <-]|].
      now destruct e; intros [= _ <-].
    + rewrite merged_config_fresh by assumption. now intros [= _ <-].
  - intros [= _ <-]. revert Em. destruct (file w) as [bs|] eqn:Ef.
    + rewrite (merged_config_existing _ _ _ Ef).
      destruct (read_fault w); [now intros [= _ <-]|].
      destruct (parse_file bs) as [v|e0]; [now intros [= _ <-]|].
      now destruct e0; intros [= _ <-].
    + now rewrite merged_config_fresh.
Qed.


(** X7: the file a run writes is plain ASCII: every byte is a printable
    character or a line feed, whatever characters the configuration
    holds. *)
Theorem written_file_is_ascii (newEntries : dict) (w w' : world) :
  mergeAndPersist newEntries w = (Return tt, w') ->
  exists bs,
    file w' = Some bs
    /\ Forall (fun b => json_char (N_of_ascii b) = true) bs.
Proof.
  intros H.
  destruct (mergeAndPersist_Return _ _ _ H) as (config & w1 & _ & _ & ->).
  exists (file_bytes config). split; [reflexivity|].
  unfold file_bytes. apply Forall_forall. intros b Hb.
  apply in_map_iff in Hb as (c & <- & Hc).
  pose proof (encode_json_chars config 0) as Hall.
  fold (json_dumps config) in Hall. unfold all_json_chars in Hall.
  rewrite Forall_forall in Hall.
  specialize (Hall c Hc). pose proof Hall as Hr. apply json_char_range in Hr.
  rewrite N_ascii_embedding by lia. exact Hall.
Qed.

(** X8: recovering from invalid JSON writes the very bytes a run without
    any file writes: nothing of the old content survives. *)
Theorem recovery_writes_the_fresh_file (newEntries : dict) (w : world)
        (bs : list byte) :
  file w = Some bs -> read_fault w = None -> writable w ->
  parse_file bs = Raise JSONDecodeError ->
  exists w1 w2,
    mergeAndPersist newEntries w = (Return tt, w1)
    /\ mergeAndPersist newEntries (set_file None w) = (Return tt, w2)
    /\ file w1 = file w2.
Proof.
  intros Hf Hr Hw Hp.
  exists (set_file (Some (file_bytes (config_template newEntries)))
                   (add_stdout warning w)),
         (set_file (Some (file_bytes (config_template newEntries)))
                   (set_file None w)).
  split; [|split; [|reflexivity]].
  - apply mergeAndPersist_writes; [|assumption].
    now rewrite (merged_config_existing _ _ _ Hf), Hr, Hp.
  - apply mergeAndPersist_writes; [now apply merged_config_fresh|assumption].
Qed.

(** The UTF-8 byte order mark. *)
Definition utf8_bom : list byte :=
  [ascii_of_nat 239; ascii_of_nat 187; ascii_of_nat 191].

Lemma parse_file_bom (rest : list byte) (t : text) :
  utf8_decode rest = Some t ->
  parse_file (utf8_bom ++ rest) = Raise JSONDecodeError.
Proof.
  intros H. unfold parse_file, utf8_decode in *.
  change (map N_of_ascii (utf8_bom ++ rest))
    with (239 :: 187 :: 191 :: map N_of_ascii rest).
  change (utf8_decode_units (239 :: 187 :: 191 :: map N_of_ascii rest))
    with (option_map (cons 0xFEFF) (utf8_decode_units (map N_of_ascii rest))).
  now rewrite H.
Qed.

(** X13: the file is opened as [utf-8], not [utf-8-sig], so a file that
    starts with a byte order mark is invalid JSON to [json.load] even when
    the rest is a valid configuration: the run prints the warning and
    replaces the content by the template. *)
Theorem file_with_bom_is_replaced (newEntries : dict) (w : world)
        (rest : list byte) (t : text) :
  file w = Some (utf8_bom ++ rest) -> utf8_decode rest = Some t ->
  read_fault w = None -> writable w ->
  exists w',
    mergeAndPersist newEntries w = (Return tt, w')
    /\ stdout w' = stdout w ++ [warning]
    /\ file w' = Some (file_bytes (config_template newEntries)).
Proof.
  intros Hf Ht Hr Hw.
  exists (set_file (Some (file_bytes (config_template newEntries)))
                   (add_stdout warning w)).
  split; [|split; reflexivity].
  apply mergeAndPersist_writes; [|assumption].
  now rewrite (merged_config_existing _ _ _ Hf), Hr, (parse_file_bom _ _ Ht).
Qed.

(** *** [create_claude_config] and the main block *)

Lemma create_claude_config_with_eq (newEntries : dict) (w : world) :
  create_claude_config_with newEntries w =
  match mkdir_fault w with
  | Some errno => (Raise (OSError errno), w)
  | None =>
      match mergeAndPersist newEntries (set_dir_exists true w) with
      | (Return _, w1) =>
          (Return (config_file_of (home w)),
           add_lines (next_steps (config_file_of (home w))) w1)
      | (Raise e, w1) => (Raise e, w1)
      end
  end.
Proof.
  unfold create_claude_config_with, bind at 1, path_home.
  unfold bind at 1, mkdir_parents. destruct (mkdir_fault w); [reflexivity|].
  unfold bind at 1.
  now destruct (mergeAndPersist newEntries (set_dir_exists true w)) as [[[]|e] w1].
Qed.

Lemma create_claude_config_returns_aux (newEntries : dict) (w w' : world)
        (path : string) :
  dict_ok newEntries = true ->
  create_claude_config_with newEntries w = (Return path, w') ->
  path = config_file_of (home w)
  /\ dir_exists w' = true
  /\ (exists pre, warned pre
                  /\ stdout w' = stdout w ++ pre ++ next_steps path)
  /\ exists bs d' servers',
       file w' = Some bs
       /\ parse_file bs = Return (VDict d')
       /\ dict_get mcpServers d' = Some (VDict servers')
       /\ forall k v, dict_get k newEntries = Some v ->
                      dict_get k servers' = Some v.
Proof.
  intros Hne. rewrite create_claude_config_with_eq.
  destruct (mkdir_fault w); [easy|].
  destruct (mergeAndPersist newEntries (set_dir_exists true w))
    as [[[]|e] w1] eqn:Em; [|easy].
  set (lines := next_steps (config_file_of (home w))).
  intros H.
  assert (Hp : path = config_file_of (home w)) by congruence.
  assert (Hw' : w' = add_lines lines w1) by congruence.
  clear H. subst path w'. fold lines.
  destruct (mergeAndPersist_world _ _ _ _ Em) as (pre & f & Hpre & Hw1).
  destruct (run_holds_new_entries newEntries _ _ Hne Em)
    as (bs & d' & servers' & Hf & Hrest).
  destruct (add_lines_fields lines w1) as (Hd1 & Hf1 & _).
  destruct (add_lines_fields pre (set_dir_exists true w)) as (Hd0 & _ & _).
  split; [reflexivity|]. split; [|split].
  - rewrite Hd1, Hw1. cbn [dir_exists set_file]. now rewrite Hd0.
  - exists pre. split; [assumption|].
    rewrite stdout_add_lines, Hw1. cbn [stdout set_file].
    rewrite stdout_add_lines. cbn [stdout set_dir_exists].
    now rewrite <- app_assoc.
  - exists bs, d', servers'. split; [|exact Hrest]. now rewrite Hf1.
Qed.

(** X9: when [create_claude_config] returns, it returns the path of the
    file under the home directory, the directory exists, the file holds
    the new entries, and it has printed the optional warning followed by
    the five lines that start with the path written. *)
Theorem create_claude_config_returns (newEntries : dict) (w w' : world)
        (path : string) :
  dict_ok newEntries = true ->
  create_claude_config_with newEntries w = (Return path, w') ->
  path = config_file_of (home w)
  /\ dir_exists w' = true
  /\ (exists pre, warned pre
                  /\ stdout w' = stdout w ++ pre ++ next_steps path)
  /\ exists bs d' servers',
       file w' = Some bs
       /\ parse_file bs = Return (VDict d')
       /\ dict_get mcpServers d' = Some (VDict servers')
       /\ forall k v, dict_get k newEntries = Some v ->
                      dict_get k servers' = Some v.
Proof. apply create_claude_config_returns_aux. Qed.

Lemma create_claude_config_raises_aux (newEntries : dict) (w w' : world)
        (e : exn) :
  create_claude_config_with newEntries w = (Raise e, w') ->
  (exists pre, warned pre /\ stdout w' = stdout w ++ pre)
  /\ (mkdir_fault w = None -> dir_exists w' = true).
Proof.
  rewrite create_claude_config_with_eq.
  destruct (mkdir_fault w) eqn:Emk.
  { intros [= _ <-]. split; [|easy]. exists []. split; [now left|].
    now rewrite app_nil_r. }
  destruct (mergeAndPersist newEntries (set_dir_exists true w))
    as [[[]|e0] w1] eqn:Em; [easy|].
  intros [= _ <-].
  destruct (mergeAndPersist_world _ _ _ _ Em) as (pre & f & Hpre & ->).
  destruct (add_lines_fields pre (set_dir_exists true w)) as (Hd0 & _ & _).
  split.
  - exists pre. split; [assumption|]. cbn [stdout set_file].
    now rewrite stdout_add_lines.
  - intros _. cbn [dir_exists set_file]. now rewrite Hd0.
Qed.


Lemma main_eq (w : world) :
  main w =
  match create_claude_config (add_lines banner w) with
  | (Return path, w1) => (Return tt, add_lines (closing path) w1)
  | (Raise e, w1) => (Raise e, w1)
  end.
Proof.
  unfold main, bind at 1, print at 1. unfold bind at 1, print at 1.
  unfold bind at 1. cbn [add_lines banner fold_left].
  now destruct (create_claude_config _) as [[path|e] w1].
Qed.

(** X11: when the main block fails, it fails with the exception of
    [create_claude_config], after the two banner lines and the optional
    warning: the usage examples and the closing message are not printed. *)
Theorem main_raises (w w' : world) (e : exn) :
  main w = (Raise e, w') ->
  exists pre, warned pre /\ stdout w' = stdout w ++ banner ++ pre.
Proof.
  rewrite main_eq.
  destruct (create_claude_config (add_lines banner w)) as [[path|e0] w1] eqn:Ec;
    [easy|].
  intros [= _ <-].
  destruct (create_claude_config_raises_aux _ _ _ _ Ec) as [(pre & Hpre & Hs) _].
  exists pre. split; [assumption|].
  now rewrite Hs, stdout_add_lines, <- app_assoc.
Qed.

(** X12: when the main block returns, the file holds the two default
    servers, and the output is, in this order: the banner, the optional
    warning, the path written and the next steps, the separator, the usage
    examples, and the closing message naming the same path. *)
Theorem main_returns (w w' : world) :
  main w = (Return tt, w') ->
  (exists pre,
      warned pre
      /\ stdout w' = stdout w ++ banner ++ pre
                     ++ next_steps (config_file_of (home w))
                     ++ closing (config_file_of (home w)))
  /\ exists bs d' servers',
       file w' = Some bs
       /\ parse_file bs = Return (VDict d')
       /\ dict_get mcpServers d' = Some (VDict servers')
       /\ forall k v, dict_get k buildDefaultEntries = Some v ->
                      dict_get k servers' = Some v.
Proof.
  rewrite main_eq.
  destruct (create_claude_config (add_lines banner w)) as [[path|e0] w1] eqn:Ec;
    [|easy].
  set (lines := closing path). intros H.
  assert (Hw' : w' = add_lines lines w1) by congruence. clear H. subst w'.
  destruct (create_claude_config_returns_aux _ _ _ _ buildDefaultEntries_ok Ec)
    as (Hp & _ & (pre & Hpre & Hs) & (bs & d' & servers' & Hf & Hrest)).
  destruct (add_lines_fields banner w) as (_ & _ & Hh).
  destruct (add_lines_fields lines w1) as (_ & Hf1 & _).
  rewrite Hh in Hp. subst path. split.
  - exists pre. split; [assumption|].
    rewrite stdout_add_lines, Hs, stdout_add_lines.
    now rewrite <- !app_assoc.
  - exists bs, d', servers'. split; [|exact Hrest]. now rewrite Hf1.
Qed.

End MainBlock.

(** ** The statements on concrete environments

    Each statement above that has hypotheses is applied here to a concrete
    environment, with the computable floats [int_floats]. *)

#[local] Existing Instance int_floats.

(** A text written with ['] for the double quote. *)
Definition quoted (s : string) : text :=
  map (fun c => if c =? 39 then 34 else c) (lit s).

(** The bytes of an ASCII file, written with ['] for the double quote. *)
Definition bytes_of (s : string) : list byte := map ascii_of_N (quoted s).

(** A healthy environment whose directory exists, with this file. *)
Definition world_with (content : option (list byte)) : world :=
  mkWorld "/home/user" true content [] None None None None.

(** No directory, no file. *)
Definition fresh_world : world :=
  mkWorld "/home/user" false None [] None None None None.

Definition text_lines (lines : list string) : text :=
  match lines with
  | [] => []
  | l :: ls => quoted l ++ flat_map (fun l' => 10 :: quoted l') ls
  end.

(** The text a first run writes. *)
Example fresh_file_text :
  json_dumps (config_template buildDefaultEntries)
  = text_lines
      ["{";
       "  'mcpServers': {";
       "    'authentik-full': {";
       "      'command': 'uvx',";
       "      'args': [";
       "        'authentik-mcp'";
       "      ],";
       "      'env': {";
       "        'AUTHENTIK_BASE_URL': 'https://your-authentik-instance.com',";
       "        'AUTHENTIK_TOKEN': 'your-api-token-here'";
       "      }";
       "    },";
       "    'authentik-diag': {";
       "      'command': 'uvx',";
       "      'args': [";
       "        'authentik-diag-mcp'";
       "      ],";
       "      'env': {";
       "        'AUTHENTIK_BASE_URL': 'https://your-authentik-instance.com',";
       "        'AUTHENTIK_TOKEN': 'your-readonly-token-here'";
       "      }";
       "    }";
       "  }";
       "}"]%string.
Proof. vm_compute. reflexivity. Qed.

(** Escapes, numbers, constants and nesting, as [json.loads] reads them. *)
Example json_loads_example :
  json_loads (quoted "{'a': [1, -20, true, null, 'x\u00e9\n'], 'a': {}, 'b': []}")
  = Return (VDict [(lit "a", VDict []); (lit "b", VList [])]).
Proof. vm_compute. reflexivity. Qed.

Example json_loads_trailing_comma :
  json_loads (quoted "[1, 2,]") = Raise JSONDecodeError.
Proof. vm_compute. reflexivity. Qed.

Example json_loads_extra_data :
  json_loads (quoted "{} x") = Raise JSONDecodeError.
Proof. vm_compute. reflexivity. Qed.

(** [{"theme": "dark", "mcpServers": {"foo": {}, "authentik-full": 7}}] *)
Definition themed_text : string :=
  "{'theme': 'dark', 'mcpServers': {'foo': {}, 'authentik-full': 7}}".

Definition themed_servers : dict :=
  [(lit "foo", VDict []); (lit "authentik-full", VInt 7)].

Definition themed_config : dict :=
  [(lit "theme", VStr (lit "dark")); (mcpServers, VDict themed_servers)].

Definition themed_world : world := world_with (Some (bytes_of themed_text)).

Example themed_text_parses :
  parse_file (bytes_of themed_text) = Return (VDict themed_config).
Proof. vm_compute. reflexivity. Qed.

Lemma merge_keeps_old_and_adds_new_witness :
  exists w' bs' d' servers',
    mergeAndPersist buildDefaultEntries themed_world = (Return tt, w')
    /\ file w' = Some bs'
    /\ parse_file bs' = Return (VDict d')
    /\ dict_get mcpServers d' = Some (VDict servers')
    /\ (forall k v, dict_get k buildDefaultEntries = Some v ->
                    dict_get k servers' = Some v)
    /\ (forall servers k,
          dict_get mcpServers themed_config = Some (VDict servers) ->
          dict_get k buildDefaultEntries = None ->
          dict_get k servers' = dict_get k servers)
    /\ (dict_get mcpServers themed_config = None ->
        servers' = buildDefaultEntries).
Proof.
  apply (merge_keeps_old_and_adds_new buildDefaultEntries themed_config
           themed_world (bytes_of themed_text)).
  - reflexivity.
  - reflexivity.
  - reflexivity.
  - repeat split.
  - vm_compute. reflexivity.
  - right. exists themed_servers. reflexivity.
Defined.

Definition corrupt_world : world :=
  world_with (Some (bytes_of "not valid json")).

Lemma invalid_json_is_replaced_witness :
  exists w',
    mergeAndPersist buildDefaultEntries corrupt_world = (Return tt, w')
    /\ stdout w' = stdout corrupt_world ++ [warning]
    /\ file w' = Some (file_bytes (config_template buildDefaultEntries))
    /\ parse_file (file_bytes (config_template buildDefaultEntries))
       = Return (VDict [(mcpServers, VDict buildDefaultEntries)]).
Proof.
  apply (invalid_json_is_replaced buildDefaultEntries corrupt_world
           (bytes_of "not valid json")).
  - reflexivity.
  - reflexivity.
  - reflexivity.
  - repeat split.
  - vm_compute. reflexivity.
Defined.

Lemma fresh_file_is_the_template_witness :
  exists w',
    create_claude_config fresh_world
    = (Return (config_file_of (home fresh_world)), w')
    /\ dir_exists w' = true
    /\ file w' = Some (file_bytes (config_template buildDefaultEntries))
    /\ parse_file (file_bytes (config_template buildDefaultEntries))
       = Return (VDict [(mcpServers, VDict buildDefaultEntries)])
    /\ dict_keys buildDefaultEntries
       = [lit "authentik-full"; lit "authentik-diag"].
Proof.
  apply (fresh_file_is_the_template fresh_world).
  - repeat split.
  - reflexivity.
Defined.

Lemma colliding_entry_is_overwritten_witness :
  exists w' bs' d' servers',
    mergeAndPersist buildDefaultEntries themed_world = (Return tt, w')
    /\ file w' = Some bs'
    /\ parse_file bs' = Return (VDict d')
    /\ dict_get mcpServers d' = Some (VDict servers')
    /\ dict_get (lit "authentik-full") servers'
       = Some (server_entry "authentik-mcp"
                            "https://your-authentik-instance.com"
                            "your-api-token-here").
Proof.
  apply (colliding_entry_is_overwritten buildDefaultEntries themed_config
           themed_servers themed_world (bytes_of themed_text)
           (lit "authentik-full") (VInt 7)).
  - reflexivity.
  - reflexivity.
  - reflexivity.
  - repeat split.
  - vm_compute. reflexivity.
  - reflexivity.
  - reflexivity.
  - reflexivity.
Defined.

Lemma second_run_writes_the_same_bytes_witness :
  exists w1 w2,
    mergeAndPersist buildDefaultEntries (world_with None) = (Return tt, w1)
    /\ mergeAndPersist buildDefaultEntries w1 = (Return tt, w2)
    /\ file w1 = Some (file_bytes (config_template buildDefaultEntries))
    /\ file w2 = file w1.
Proof.
  apply (second_run_writes_the_same_bytes buildDefaultEntries (world_with None)).
  - reflexivity.
  - reflexivity.
  - reflexivity.
  - repeat split.
Defined.

Lemma written_file_parses_back_witness :
  exists config w1,
    merged_config buildDefaultEntries themed_world = (Return config, w1)
    /\ json_dump config w1
       = (Return tt, snd (mergeAndPersist buildDefaultEntries themed_world))
    /\ file (snd (mergeAndPersist buildDefaultEntries themed_world))
       = Some (file_bytes config)
    /\ parse_file (file_bytes config) = Return config.
Proof.
  apply (written_file_parses_back buildDefaultEntries themed_world
           (snd (mergeAndPersist buildDefaultEntries themed_world))).
  - reflexivity.
  - vm_compute. reflexivity.
Defined.

Definition EACCES : nat := 13.
Definition ENOSPC : nat := 28.

(** The directory cannot be created. *)
Definition no_mkdir_world : world :=
  mkWorld "/home/user" false None [] (Some EACCES) None None None.

(** The file exists and cannot be read. *)
Definition unreadable_world : world :=
  mkWorld "/home/user" true (Some (bytes_of themed_text)) []
          None (Some EACCES) None None.

(** The file holds the byte [0xFF], which is not UTF-8. *)
Definition undecodable_world : world :=
  world_with (Some [ascii_of_nat 255]).

(** The file cannot be opened for writing. *)
Definition read_only_world : world :=
  mkWorld "/home/user" true (Some (bytes_of themed_text)) []
          None None (Some EACCES) None.

(** The disk is full after ten bytes. *)
Definition full_disk_world : world :=
  mkWorld "/home/user" true None [] None None None (Some (ENOSPC, 10%nat)).

Lemma only_decode_errors_are_handled_witness :
  create_claude_config_with buildDefaultEntries no_mkdir_world
  = (Raise (OSError EACCES), no_mkdir_world)
  /\ mergeAndPersist buildDefaultEntries unreadable_world
     = (Raise (OSError EACCES), unreadable_world)
  /\ mergeAndPersist buildDefaultEntries undecodable_world
     = (Raise UnicodeDecodeError, undecodable_world)
  /\ (mergeAndPersist buildDefaultEntries read_only_world
      = (Raise (OSError EACCES), read_only_world)
      /\ file read_only_world = file read_only_world)
  /\ mergeAndPersist buildDefaultEntries full_disk_world
     = (Raise (OSError ENOSPC),
        set_file (Some (firstn 10 (file_bytes
                                     (config_template buildDefaultEntries))))
                 full_disk_world).
Proof.
  split; [|split; [|split; [|split]]].
  - apply (only_decode_errors_are_handled buildDefaultEntries no_mkdir_world).
    reflexivity.
  - apply (only_decode_errors_are_handled buildDefaultEntries unreadable_world).
    + discriminate.
    + reflexivity.
  - apply (proj1 (proj2 (proj2 (only_decode_errors_are_handled
                                  buildDefaultEntries undecodable_world)))
             [ascii_of_nat 255]).
    + reflexivity.
    + reflexivity.
    + reflexivity.
    + discriminate.
  - apply (proj1 (proj2 (proj2 (proj2 (only_decode_errors_are_handled
                                         buildDefaultEntries read_only_world))))
             (merged_object buildDefaultEntries themed_config)).
    + vm_compute. reflexivity.
    + reflexivity.
  - apply (proj1 (proj2 (proj2 (proj2 (proj2 (only_decode_errors_are_handled
                                         buildDefaultEntries full_disk_world)))))
             (config_template buildDefaultEntries)).
    + reflexivity.
    + reflexivity.
    + reflexivity.
    + reflexivity.
Defined.

(** C2, as stated for every file that fails to parse: a file whose bytes
    are not UTF-8 fails to parse, and the run ends with
    [UnicodeDecodeError]; nothing is recovered and nothing is written. *)
Lemma undecodable_file_is_not_recovered :
  parse_file [ascii_of_nat 255] = Raise UnicodeDecodeError
  /\ mergeAndPersist buildDefaultEntries undecodable_world
     = (Raise UnicodeDecodeError, undecodable_world).
Proof. split; reflexivity. Qed.

Definition array_world : world := world_with (Some (bytes_of "[1, 2]")).

Lemma non_object_file_raises_type_error_witness :
  mergeAndPersist buildDefaultEntries array_world = (Raise TypeError, array_world).
Proof.
  apply (non_object_file_raises_type_error buildDefaultEntries array_world
           (bytes_of "[1, 2]") (VList [VInt 1; VInt 2])).
  - reflexivity.
  - reflexivity.
  - vm_compute. reflexivity.
  - discriminate.
Defined.

Lemma other_top_level_keys_are_kept_witness :
  exists bs' d',
    file (snd (mergeAndPersist buildDefaultEntries themed_world)) = Some bs'
    /\ parse_file bs' = Return (VDict d')
    /\ (forall k, k <> mcpServers ->
                  dict_get k d' = dict_get k themed_config)
    /\ dict_keys d'
       = (if dict_contains mcpServers themed_config then dict_keys themed_config
          else dict_keys themed_config ++ [mcpServers]).
Proof.
  apply (other_top_level_keys_are_kept buildDefaultEntries themed_config
           themed_world (snd (mergeAndPersist buildDefaultEntries themed_world))
           (bytes_of themed_text)).
  - reflexivity.
  - reflexivity.
  - vm_compute. reflexivity.
  - vm_compute. reflexivity.
Defined.

(** ** The further statements on concrete environments *)

Example examples_length : String.length examples = 1243%nat.
Proof. vm_compute. reflexivity. Qed.

(** [{"mcpServers": 5, "theme": "dark"}] *)
Definition numbered_text : string := "{'mcpServers': 5, 'theme': 'dark'}".

Definition numbered_world : world := world_with (Some (bytes_of numbered_text)).

Lemma servers_not_an_object_raises_witness :
  mergeAndPersist buildDefaultEntries numbered_world
  = (Raise AttributeError, numbered_world).
Proof.
  apply (servers_not_an_object_raises buildDefaultEntries
           [(mcpServers, VInt 5); (lit "theme", VStr (lit "dark"))]
           numbered_world (bytes_of numbered_text) (VInt 5)).
  - reflexivity.
  - reflexivity.
  - vm_compute. reflexivity.
  - reflexivity.
  - discriminate.
Defined.

Lemma written_file_holds_new_entries_witness :
  exists bs d' servers',
    file (snd (mergeAndPersist buildDefaultEntries themed_world)) = Some bs
    /\ parse_file bs = Return (VDict d')
    /\ dict_get mcpServers d' = Some (VDict servers')
    /\ forall k v, dict_get k buildDefaultEntries = Some v ->
                   dict_get k servers' = Some v.
Proof.
  apply (written_file_holds_new_entries buildDefaultEntries themed_world
           (snd (mergeAndPersist buildDefaultEntries themed_world))).
  - reflexivity.
  - vm_compute. reflexivity.
Defined.

Lemma rerun_changes_nothing_witness :
  mergeAndPersist buildDefaultEntries
    (snd (mergeAndPersist buildDefaultEntries corrupt_world))
  = (Return tt, snd (mergeAndPersist buildDefaultEntries corrupt_world)).
Proof.
  apply (rerun_changes_nothing buildDefaultEntries corrupt_world
           (snd (mergeAndPersist buildDefaultEntries corrupt_world))).
  - reflexivity.
  - reflexivity.
  - vm_compute. reflexivity.
Defined.

Lemma servers_keep_their_order_witness :
  exists w' bs' d' servers',
    mergeAndPersist buildDefaultEntries themed_world = (Return tt, w')
    /\ file w' = Some bs'
    /\ parse_file bs' = Return (VDict d')
    /\ dict_get mcpServers d' = Some (VDict servers')
    /\ dict_keys servers'
       = dict_keys themed_servers
         ++ filter (fun k => negb (dict_contains k themed_servers))
                   (dict_keys buildDefaultEntries).
Proof.
  apply (servers_keep_their_order buildDefaultEntries themed_config
           themed_servers themed_world (bytes_of themed_text)).
  - reflexivity.
  - reflexivity.
  - reflexivity.
  - repeat split.
  - vm_compute. reflexivity.
  - reflexivity.
Defined.

Example themed_servers_order :
  dict_keys themed_servers
  ++ filter (fun k => negb (dict_contains k themed_servers))
            (dict_keys buildDefaultEntries)
  = [lit "foo"; lit "authentik-full"; lit "authentik-diag"].
Proof. reflexivity. Qed.

Lemma warning_only_for_invalid_json_witness :
  stdout (snd (mergeAndPersist buildDefaultEntries corrupt_world))
  = match file corrupt_world, read_fault corrupt_world with
    | Some bs, None =>
        match parse_file bs with
        | Raise JSONDecodeError => stdout corrupt_world ++ [warning]
        | _ => stdout corrupt_world
        end
    | _, _ => stdout corrupt_world
    end.
Proof.
  apply (warning_only_for_invalid_json buildDefaultEntries corrupt_world
           (snd (mergeAndPersist buildDefaultEntries corrupt_world))
           (fst (mergeAndPersist buildDefaultEntries corrupt_world))).
  vm_compute. reflexivity.
Defined.


Lemma written_file_is_ascii_witness :
  exists bs,
    file (snd (mergeAndPersist buildDefaultEntries themed_world)) = Some bs
    /\ Forall (fun b => json_char (N_of_ascii b) = true) bs.
Proof.
  apply (written_file_is_ascii buildDefaultEntries themed_world
           (snd (mergeAndPersist buildDefaultEntries themed_world))).
  vm_compute. reflexivity.
Defined.

Lemma recovery_writes_the_fresh_file_witness :
  exists w1 w2,
    mergeAndPersist buildDefaultEntries corrupt_world = (Return tt, w1)
    /\ mergeAndPersist buildDefaultEntries (set_file None corrupt_world)
       = (Return tt, w2)
    /\ file w1 = file w2.
Proof.
  apply (recovery_writes_the_fresh_file buildDefaultEntries corrupt_world
           (bytes_of "not valid json")).
  - reflexivity.
  - reflexivity.
  - repeat split.
  - vm_compute. reflexivity.
Defined.

Lemma create_claude_config_returns_witness :
  config_file_of (home fresh_world) = config_file_of (home fresh_world)
  /\ dir_exists (snd (create_claude_config fresh_world)) = true
  /\ (exists pre,
         warned pre
         /\ stdout (snd (create_claude_config fresh_world))
            = stdout fresh_world ++ pre
              ++ next_steps (config_file_of (home fresh_world)))
  /\ exists bs d' servers',
       file (snd (create_claude_config fresh_world)) = Some bs
       /\ parse_file bs = Return (VDict d')
       /\ dict_get mcpServers d' = Some (VDict servers')
       /\ forall k v, dict_get k buildDefaultEntries = Some v ->
                      dict_get k servers' = Some v.
Proof.
  apply (create_claude_config_returns buildDefaultEntries fresh_world
           (snd (create_claude_config fresh_world))
           (config_file_of (home fresh_world))).
  - reflexivity.
  - vm_compute. reflexivity.
Defined.


Lemma main_raises_witness :
  exists pre,
    warned pre
    /\ stdout (snd (main array_world)) = stdout array_world ++ banner ++ pre.
Proof.
  apply (main_raises array_world (snd (main array_world)) TypeError).
  vm_compute. reflexivity.
Defined.

Lemma main_returns_witness :
  (exists pre,
      warned pre
      /\ stdout (snd (main fresh_world))
         = stdout fresh_world ++ banner ++ pre
           ++ next_steps (config_file_of (home fresh_world))
           ++ closing (config_file_of (home fresh_world)))
  /\ exists bs d' servers',
       file (snd (main fresh_world)) = Some bs
       /\ parse_file bs = Return (VDict d')
       /\ dict_get mcpServers d' = Some (VDict servers')
       /\ forall k v, dict_get k buildDefaultEntries = Some v ->
                      dict_get k servers' = Some v.
Proof.
  apply (main_returns fresh_world (snd (main fresh_world))).
  vm_compute. reflexivity.
Defined.

(** A byte order mark followed by [{"theme": "dark"}]. *)
Definition bom_world : world :=
  world_with (Some (utf8_bom ++ bytes_of "{'theme': 'dark'}")).

Lemma file_with_bom_is_replaced_witness :
  exists w',
    mergeAndPersist buildDefaultEntries bom_world = (Return tt, w')
    /\ stdout w' = stdout bom_world ++ [warning]
    /\ file w' = Some (file_bytes (config_template buildDefaultEntries)).
Proof.
  apply (file_with_bom_is_replaced buildDefaultEntries bom_world
           (bytes_of "{'theme': 'dark'}") (quoted "{'theme': 'dark'}")).
  - reflexivity.
  - vm_compute. reflexivity.
  - reflexivity.
  - repeat split.
Defined.
